(** * node-event-source: the connection orchestrator of [src/axios.ts]
      and the line framer it is wired to.

    The orchestrator ([nodeEventSource] and its inner [create]) is embedded
    as a deterministic transition function over the events the JavaScript
    event loop can deliver to it: the settlement of the awaited calls of the
    [try] block, the calls of the three sinks by the decode pipeline, the
    retry timer, and the abort event of the caller's signal. JavaScript
    objects that are shared by reference (the header records) live in an
    explicit heap.

    The decode pipeline itself (getBytes, getLines, getMessages) is defined
    in parse.ts, which is not among the sources: the orchestrator takes its
    sink calls as events, and the line framer is modelled from the
    specification. *)

From Stdlib Require Import ZArith NArith Ascii String List Lia.
From Stdlib.Strings Require Import Byte.
From stdpp Require Import gmap strings list fin_maps.

Local Open Scope string_scope.

(** * The connection orchestrator *)

(** ** Constants *)

(* export const EventStreamContentType = "text/event-stream"; *)
Definition EventStreamContentType : string := "text/event-stream".

(* const DefaultRetryInterval = 1000; *)
Definition DefaultRetryInterval : Z := 1000.

(* const LastEventId = "last-event-id"; *)
Definition LastEventId : string := "last-event-id".

(** ** Values *)

(* export enum NodeEventSourceErrorType { Request, Other } *)
Inductive NodeEventSourceErrorType := Request | Other.

(** What a JavaScript [throw] can carry here: an [Error], an [AxiosError],
    any other value, or the classified object literal [{ type, origin }]
    that [create] builds for the error policy. *)
Inductive JsValue :=
| JsError (message : string)
| JsAxiosError (message : string)
| JsAny (tag : string)
| JsEventSourceError (ty : NodeEventSourceErrorType) (org : JsValue).

(* export interface NodeEventSourceError { type; origin } *)
Record NodeEventSourceError := {
  type : NodeEventSourceErrorType;
  origin : JsValue;
}.

Definition thrown (e : NodeEventSourceError) : JsValue :=
  JsEventSourceError (type e) (origin e).

(* err instanceof AxiosError *)
Definition instanceofAxiosError (v : JsValue) : bool :=
  match v with JsAxiosError _ => true | _ => false end.

(** How a call of a caller-supplied function completes. *)
Inductive Completion (A : Type) :=
| Returns (a : A)
| Throws (v : JsValue).
Arguments Returns {A} a.
Arguments Throws {A} v.

(** The return type [boolean | void] of [onError]. *)
Inductive Verdict := VTrue | VFalse | VUndefined.

(* v ?? d *)
Definition nullish (v : Verdict) (d : bool) : bool :=
  match v with VTrue => true | VFalse => false | VUndefined => d end.

(** The part of an [AxiosResponse] that this file reads. *)
Record AxiosResponse := {
  response_headers : gmap string string;
}.

(** Modelled from the spec: the type [EventSourceMessage] is declared in
    parse.ts, which is not among the sources; the data model gives it as
    [{ id, event, data, retry }]. *)
Record EventSourceMessage := {
  msg_id : option string;
  msg_event : option string;
  msg_data : string;
  msg_retry : option Z;
}.

(** ** The heap of header records *)

Abbreviation Loc := positive.
Abbreviation Heap := (gmap positive (gmap string string)).

(* JavaScript truthiness of a property that holds a string or is absent *)
Definition truthy (v : option string) : bool :=
  match v with
  | Some s => negb (String.eqb s EmptyString)
  | None => false
  end.

(** ** Observable actions of the orchestrator *)

Inductive Obs :=
| ObsRequest (h : gmap string string)   (* axios({ ..., headers, ... }) *)
| ObsOpen (r : AxiosResponse)           (* the caller's onOpen is called *)
| ObsMessage (m : EventSourceMessage)   (* the caller's onMessage is called *)
| ObsClose                              (* the caller's onClose is called *)
| ObsError (e : NodeEventSourceError)   (* the caller's onError is called *)
| ObsSchedule (delay : Z).              (* setTimeout(create, delay) *)

(** ** Configuration: the destructured second argument *)

(** A hook is a JavaScript closure: what it does may depend on what it has
    seen so far. Each hook is therefore a function of the trace at the time
    of the call; every call of a caller's hook extends the trace, so any
    sequence of outcomes along one run is the behaviour of such a function.
    A hook is taken to complete without firing the caller's signal itself:
    the abort of the signal is always a turn of its own ([EvAbort]), before
    or after the turn in which a hook runs. *)
Record NodeEventSourceRequestConfig := {
  cfg_retryInterval : option Z;
  cfg_headers : option Loc;
  cfg_onOpen : option (list Obs -> AxiosResponse -> Completion unit);
  cfg_onMessage : option (list Obs -> EventSourceMessage -> Completion unit);
  cfg_onClose : option (list Obs -> Completion unit);
  cfg_onError : option (list Obs -> NodeEventSourceError -> Completion Verdict);
}.

(** ** State of one call of [nodeEventSource] *)

Inductive PromiseState := Pending | Resolved | Rejected (reason : JsValue).

(** Where the body of [create] is suspended. *)
Inductive Phase :=
| Connecting                       (* await axios(...) *)
| Opening (c : Completion unit)    (* await onOpen(response) *)
| Streaming                        (* await getBytes(...) *)
| Returned.                        (* create() has returned *)

Record State := {
  heap : gmap positive (gmap string string);
  headers : Loc;                   (* const headers = { ...inputHeaders } *)
  retryInterval : Z;               (* the parameter, assigned by the retry sink *)
  retryTimer : option Z;           (* the live timer and its delay, if any *)
  aborted : bool;                  (* curRequestController.signal.aborted *)
  promise : PromiseState;
  phase : Phase;
  trace : list Obs;
}.

Definition set_heap (f : Heap -> Heap) (s : State) : State :=
  {| heap := f (heap s); headers := headers s; retryInterval := retryInterval s;
     retryTimer := retryTimer s; aborted := aborted s; promise := promise s;
     phase := phase s; trace := trace s |}.

Definition set_retryInterval (n : Z) (s : State) : State :=
  {| heap := heap s; headers := headers s; retryInterval := n;
     retryTimer := retryTimer s; aborted := aborted s; promise := promise s;
     phase := phase s; trace := trace s |}.

Definition set_retryTimer (t : option Z) (s : State) : State :=
  {| heap := heap s; headers := headers s; retryInterval := retryInterval s;
     retryTimer := t; aborted := aborted s; promise := promise s;
     phase := phase s; trace := trace s |}.

Definition set_aborted (b : bool) (s : State) : State :=
  {| heap := heap s; headers := headers s; retryInterval := retryInterval s;
     retryTimer := retryTimer s; aborted := b; promise := promise s;
     phase := phase s; trace := trace s |}.

Definition set_promise (p : PromiseState) (s : State) : State :=
  {| heap := heap s; headers := headers s; retryInterval := retryInterval s;
     retryTimer := retryTimer s; aborted := aborted s; promise := p;
     phase := phase s; trace := trace s |}.

Definition set_phase (p : Phase) (s : State) : State :=
  {| heap := heap s; headers := headers s; retryInterval := retryInterval s;
     retryTimer := retryTimer s; aborted := aborted s; promise := promise s;
     phase := p; trace := trace s |}.

Definition log (o : Obs) (s : State) : State :=
  {| heap := heap s; headers := headers s; retryInterval := retryInterval s;
     retryTimer := retryTimer s; aborted := aborted s; promise := promise s;
     phase := phase s; trace := trace s ++ [o] |}.

(** The record that the variable [headers] refers to. *)
Definition cur_headers (s : State) : gmap string string :=
  default ∅ (heap s !! headers s).

(** ** Promise and timer primitives *)

(* resolve(): settles a pending promise, does nothing to a settled one *)
Definition resolve (s : State) : State :=
  match promise s with Pending => set_promise Resolved s | _ => s end.

(* reject(v) *)
Definition reject (v : JsValue) (s : State) : State :=
  match promise s with Pending => set_promise (Rejected v) s | _ => s end.

(* clearTimeout(retryTimer) *)
Definition clearTimeout (s : State) : State := set_retryTimer None s.

(* function dispose() { clearTimeout(retryTimer); curRequestController.abort(); } *)
Definition dispose (s : State) : State := set_aborted true (clearTimeout s).

(* inputSignal?.addEventListener("abort", () => { dispose(); resolve(); }); *)
Definition onAbort (s : State) : State := resolve (dispose s).

(** ** The default hooks *)

(* function defaultOnOpen(response) *)
Definition defaultOnOpen (response : AxiosResponse) : Completion unit :=
  let contentType := response_headers response !! "Content-Type" in
  if negb (match contentType with
           | Some ct => String.prefix EventStreamContentType ct
           | None => false
           end)
  then Throws (JsError ("Expected content-type to be " ++ EventStreamContentType
                        ++ ", Actual: " ++ default "undefined" contentType))
  else Returns tt.

(* function defaultOnError(err) { throw err; } *)
Definition defaultOnError (err : NodeEventSourceError) : Completion Verdict :=
  Throws (thrown err).

(* onOpen = defaultOnOpen, onError = defaultOnError *)
Definition onOpen (cfg : NodeEventSourceRequestConfig)
  : list Obs -> AxiosResponse -> Completion unit :=
  match cfg_onOpen cfg with Some f => f | None => fun _ => defaultOnOpen end.

Definition onError (cfg : NodeEventSourceRequestConfig)
  : list Obs -> NodeEventSourceError -> Completion Verdict :=
  match cfg_onError cfg with Some f => f | None => fun _ => defaultOnError end.

(** The caller's hooks leave a mark in the trace, the defaults do not. *)
Definition log_if {A} (o : option A) (ob : Obs) (s : State) : State :=
  match o with Some _ => log ob s | None => s end.

(** ** The three sinks handed to getMessages *)

(* (id) => { if (id) headers[LastEventId] = id; else delete headers[LastEventId]; } *)
Definition idSink (id : option string) (s : State) : State :=
  if truthy id
  then set_heap (<[headers s := <[LastEventId := default EmptyString id]> (cur_headers s)]>) s
  else set_heap (<[headers s := delete LastEventId (cur_headers s)]>) s.

(* (retry) => { retryInterval = retry; } *)
Definition retrySink (retry : Z) (s : State) : State := set_retryInterval retry s.

Inductive SinkCall :=
| SinkId (id : option string)
| SinkRetry (retry : Z)
| SinkMessage (m : EventSourceMessage).

(** ** [create] *)

(* curRequestController = new AbortController(); axios({ url, ...rest, headers, ... }) *)
Definition create (s : State) : State :=
  log (ObsRequest (cur_headers s)) (set_phase Connecting (set_aborted false s)).

(* the classified error built in the catch block *)
Definition classify (err : JsValue) : NodeEventSourceError :=
  {| type := if instanceofAxiosError err then Request else Other; origin := err |}.

(* catch (err) { ... } *)
Definition catch_block (cfg : NodeEventSourceRequestConfig) (err : JsValue) (s : State) : State :=
  let s := set_phase Returned s in
  if aborted s then s
  else
    let e := classify err in
    let s := log_if (cfg_onError cfg) (ObsError e) s in
    match onError cfg (trace s) e with
    | Returns v =>
        let shouldRetry := nullish v false in
        let s := clearTimeout s in
        if shouldRetry
        then log (ObsSchedule (retryInterval s)) (set_retryTimer (Some (retryInterval s)) s)
        else s
    | Throws innerErr => reject innerErr (dispose s)
    end.

(** Events delivered to the orchestrator. *)
Inductive Event :=
| EvAxiosReject (err : JsValue)        (* the awaited axios call rejects *)
| EvAxiosResponse (r : AxiosResponse)  (* it fulfils with a response *)
| EvOpenSettled                        (* the awaited onOpen(response) settles *)
| EvSink (c : SinkCall)                (* the decode pipeline calls a sink *)
| EvStreamEnd                          (* the awaited getBytes fulfils *)
| EvStreamFault (err : JsValue)        (* the awaited getBytes rejects *)
| EvTimer                              (* the retry timer fires *)
| EvAbort.                             (* the caller's signal aborts *)

(** One resumption of the [try] block: the state it leaves and, if it
    throws, the thrown value. [None]: the event cannot occur in this state.
    getBytes is handed the body of the response and no signal: the awaited
    call may fulfil or reject whether or not the abort handle of the attempt
    has fired, and the continuation after it tests nothing. *)
Definition try_block (cfg : NodeEventSourceRequestConfig) (s : State) (ev : Event)
  : option (State * option JsValue) :=
  match ev, phase s with
  | EvAxiosReject err, Connecting => Some (s, Some err)
  | EvAxiosResponse r, Connecting =>
      let s := log_if (cfg_onOpen cfg) (ObsOpen r) s in
      Some (set_phase (Opening (onOpen cfg (trace s) r)) s, None)
  | EvOpenSettled, Opening (Returns _) => Some (set_phase Streaming s, None)
  | EvOpenSettled, Opening (Throws v) => Some (s, Some v)
  | EvSink (SinkId id), Streaming => Some (idSink id s, None)
  | EvSink (SinkRetry retry), Streaming => Some (retrySink retry s, None)
  | EvSink (SinkMessage m), Streaming =>
      match cfg_onMessage cfg with
      | None => Some (s, None)
      | Some f =>
          let s := log (ObsMessage m) s in
          match f (trace s) m with
          | Returns _ => Some (s, None)
          | Throws v => Some (s, Some v)
          end
      end
  | EvStreamEnd, Streaming =>
      let s := log_if (cfg_onClose cfg) ObsClose s in
      match cfg_onClose cfg with
      | Some f =>
          match f (trace s) with
          | Returns _ => Some (set_phase Returned (resolve (dispose s)), None)
          | Throws v => Some (s, Some v)
          end
      | None => Some (set_phase Returned (resolve (dispose s)), None)
      end
  | EvStreamFault err, Streaming => Some (s, Some err)
  | _, _ => None
  end.

(** One turn of the event loop. *)
Definition step (cfg : NodeEventSourceRequestConfig) (s : State) (ev : Event) : option State :=
  match ev with
  | EvAbort => Some (onAbort s)
  | EvTimer =>
      match retryTimer s with
      | Some _ => Some (create (set_retryTimer None s))
      | None => None
      end
  | _ =>
      match try_block cfg s ev with
      | Some (s1, None) => Some s1
      | Some (s1, Some err) => Some (catch_block cfg err s1)
      | None => None
      end
  end.

Fixpoint run (cfg : NodeEventSourceRequestConfig) (s : State) (evs : list Event) : option State :=
  match evs with
  | [] => Some s
  | ev :: evs' =>
      match step cfg s ev with
      | Some s' => run cfg s' evs'
      | None => None
      end
  end.

(* export function nodeEventSource(url, { ... }) *)
Definition nodeEventSource (cfg : NodeEventSourceRequestConfig) (h0 : Heap) : State :=
  let copy := match cfg_headers cfg with
              | Some l => default ∅ (h0 !! l)
              | None => ∅
              end in
  let copy := if truthy (copy !! "accept") then copy
              else <["accept" := EventStreamContentType]> copy in
  let l := fresh (dom h0) in
  create {| heap := <[l := copy]> h0; headers := l;
            retryInterval := default DefaultRetryInterval (cfg_retryInterval cfg);
            retryTimer := None; aborted := false; promise := Pending;
            phase := Returned; trace := [] |}.

(** ** Reading a trace *)

Definition is_request (o : Obs) : bool := match o with ObsRequest _ => true | _ => false end.
Definition is_schedule (o : Obs) : bool := match o with ObsSchedule _ => true | _ => false end.
Definition is_close (o : Obs) : bool := match o with ObsClose => true | _ => false end.
Definition is_error (o : Obs) : bool := match o with ObsError _ => true | _ => false end.

(** The attempts started, the retries scheduled, and the calls of the close
    hook and of the error policy recorded in a trace. *)
Definition requests (t : list Obs) : list Obs := List.filter is_request t.
Definition schedules (t : list Obs) : list Obs := List.filter is_schedule t.
Definition closes (t : list Obs) : list Obs := List.filter is_close t.
Definition errors (t : list Obs) : list Obs := List.filter is_error t.

(** The retry delay in force after a sequence of events, from delay [d]. *)
Fixpoint current_delay (d : Z) (evs : list Event) : Z :=
  match evs with
  | [] => d
  | EvSink (SinkRetry retry) :: evs' => current_delay retry evs'
  | _ :: evs' => current_delay d evs'
  end.

Definition is_id_sink (ev : Event) : bool :=
  match ev with EvSink (SinkId _) => true | _ => false end.

(* does the string hold a U+0000 character? *)
Fixpoint contains_null (s : string) : bool :=
  match s with
  | EmptyString => false
  | String c s' => if Ascii.eqb c "000"%char then true else contains_null s'
  end.

(** The orchestrator has been disposed of: its abort handle has fired and
    no timer is live. *)
Definition torn_down (s : State) : Prop :=
  aborted s = true /\ retryTimer s = None.

(** The call is over: the orchestrator has been disposed of and [create]
    has returned, so nothing is awaited and nothing is scheduled. *)
Definition over (s : State) : Prop :=
  torn_down s /\ phase s = Returned.

(** A settled promise belongs to a torn-down orchestrator. *)
Definition settled_inv (s : State) : Prop :=
  promise s <> Pending -> torn_down s.

(** The value of the last-event-id header after the id sink received [id]. *)
Definition carried_id (id : option string) : option string :=
  match id with
  | Some x => if String.eqb x EmptyString then None else Some x
  | None => None
  end.

(** The message of the error thrown by [defaultOnOpen]. *)
Definition content_type_error (contentType : option string) : JsValue :=
  JsError ("Expected content-type to be text/event-stream, Actual: "
           ++ match contentType with Some ct => ct | None => "undefined" end).

(** ** Concrete calls *)

(* nodeEventSource(url, {}) *)
Definition plain_cfg : NodeEventSourceRequestConfig :=
  {| cfg_retryInterval := None; cfg_headers := None; cfg_onOpen := None;
     cfg_onMessage := None; cfg_onClose := None; cfg_onError := None |}.

(* nodeEventSource(url, { onError: () => v }) *)
Definition policy_cfg (v : Verdict) : NodeEventSourceRequestConfig :=
  {| cfg_retryInterval := None; cfg_headers := None; cfg_onOpen := None;
     cfg_onMessage := None; cfg_onClose := None;
     cfg_onError := Some (fun _ _ => Returns v) |}.

(* nodeEventSource(url, { onClose() { throw new Error("closed") }, onError: () => true }) *)
Definition close_throws_cfg : NodeEventSourceRequestConfig :=
  {| cfg_retryInterval := None; cfg_headers := None; cfg_onOpen := None;
     cfg_onMessage := None; cfg_onClose := Some (fun _ => Throws (JsError "closed"));
     cfg_onError := Some (fun _ _ => Returns VTrue) |}.

(* nodeEventSource(url, { onClose() {} }) *)
Definition closing_cfg : NodeEventSourceRequestConfig :=
  {| cfg_retryInterval := None; cfg_headers := None; cfg_onOpen := None;
     cfg_onMessage := None; cfg_onClose := Some (fun _ => Returns tt);
     cfg_onError := None |}.

(* const mine = { authorization: "token" }; nodeEventSource(url, { headers: mine, onError: () => true }) *)
Definition caller_heap : gmap positive (gmap string string) :=
  {[ 1%positive := {[ "authorization" := "token" ]} ]}.

Definition headers_cfg : NodeEventSourceRequestConfig :=
  {| cfg_retryInterval := None; cfg_headers := Some 1%positive; cfg_onOpen := None;
     cfg_onMessage := None; cfg_onClose := None;
     cfg_onError := Some (fun _ _ => Returns VTrue) |}.

(** The first attempt of a call from an empty heap, once its response has
    passed validation. *)
Definition streaming (cfg : NodeEventSourceRequestConfig) : State :=
  set_phase Streaming (nodeEventSource cfg ∅).

(** The state reached by a sequence of events. *)
Definition after (cfg : NodeEventSourceRequestConfig) (s : State) (evs : list Event) : State :=
  match run cfg s evs with Some s' => s' | None => s end.

Definition event_stream_response : AxiosResponse :=
  {| response_headers := {[ "Content-Type" := "text/event-stream" ]} |}.

Definition html_response : AxiosResponse :=
  {| response_headers := {[ "Content-Type" := "text/html" ]} |}.

Definition refused : JsValue := JsAxiosError "connect ECONNREFUSED".

(* the id "a\0" *)
Definition null_id : string := String "a"%char (String "000"%char EmptyString).

(** * The line framer *)

Local Close Scope string_scope.

(** Modelled from the spec: decoded text, a sequence of Unicode code points
    (getLines and its types are in parse.ts, not among the sources). *)
Abbreviation Text := (list N).

Definition CR : N := 13.
Definition LF : N := 10.
Definition REPLACEMENT : N := 0xFFFD.

(** Modelled from the spec: the incremental decoder of getLines (parse.ts is
    not among the sources). The spec fixes the encoding, UTF-8, and that a
    character whose bytes are split between chunks is held back until it is
    complete; the state below is that held-back part. Malformed input, on
    which the spec is silent, is replaced by U+FFFD as the UTF-8 decoder of
    the Encoding Standard does. *)
Record Utf8Decoder := {
  code_point : N;
  bytes_seen : nat;
  bytes_needed : nat;
  lower_boundary : N;
  upper_boundary : N;
}.

Definition utf8_idle : Utf8Decoder :=
  {| code_point := 0; bytes_seen := 0; bytes_needed := 0;
     lower_boundary := 0x80; upper_boundary := 0xBF |}.

(** Modelled from the spec: the decoder of getLines at a byte that arrives
    when no character is in progress. *)
Definition utf8_lead (b : N) : Utf8Decoder * Text :=
  if (b <=? 0x7F)%N then (utf8_idle, [b])
  else if ((0xC2 <=? b) && (b <=? 0xDF))%N then
    ({| code_point := N.land b 0x1F; bytes_seen := 0; bytes_needed := 1;
        lower_boundary := 0x80; upper_boundary := 0xBF |}, [])
  else if ((0xE0 <=? b) && (b <=? 0xEF))%N then
    ({| code_point := N.land b 0xF; bytes_seen := 0; bytes_needed := 2;
        lower_boundary := if (b =? 0xE0)%N then 0xA0 else 0x80;
        upper_boundary := if (b =? 0xED)%N then 0x9F else 0xBF |}, [])
  else if ((0xF0 <=? b) && (b <=? 0xF4))%N then
    ({| code_point := N.land b 0x7; bytes_seen := 0; bytes_needed := 3;
        lower_boundary := if (b =? 0xF0)%N then 0x90 else 0x80;
        upper_boundary := if (b =? 0xF4)%N then 0x8F else 0xBF |}, [])
  else (utf8_idle, [REPLACEMENT]).

(** Modelled from the spec: the decoder of getLines at one byte; the result
    is the new state and the code points completed by the byte. A byte that
    cannot continue the character in progress ends it as malformed and is
    read again as a first byte. *)
Definition utf8_byte (d : Utf8Decoder) (b : N) : Utf8Decoder * Text :=
  match bytes_needed d with
  | O => utf8_lead b
  | S _ =>
      if negb ((lower_boundary d <=? b) && (b <=? upper_boundary d))%N
      then let (d', out) := utf8_lead b in (d', REPLACEMENT :: out)
      else
        let cp := N.lor (N.shiftl (code_point d) 6) (N.land b 0x3F) in
        if Nat.eqb (S (bytes_seen d)) (bytes_needed d)
        then (utf8_idle, [cp])
        else ({| code_point := cp; bytes_seen := S (bytes_seen d);
                 bytes_needed := bytes_needed d;
                 lower_boundary := 0x80; upper_boundary := 0xBF |}, [])
  end.

(** Modelled from the spec: the decoder of getLines over the bytes of one
    chunk. *)
Fixpoint utf8_decode (d : Utf8Decoder) (bytes : list byte) : Utf8Decoder * Text :=
  match bytes with
  | [] => (d, [])
  | b :: bytes' =>
      let (d1, out1) := utf8_byte d (Byte.to_N b) in
      let (d2, out2) := utf8_decode d1 bytes' in
      (d2, out1 ++ out2)
  end.

(** Modelled from the spec: the decoder of getLines at the end of the
    stream, where an unfinished character is malformed. *)
Definition utf8_flush (d : Utf8Decoder) : Text :=
  match bytes_needed d with O => [] | S _ => [REPLACEMENT] end.

(** Modelled from the spec: a line handed to the line sink, with the flag
    that tells whether the stream ended exactly at this line. *)
Record Line := {
  line_text : Text;
  line_is_last : bool;
}.

Definition terminated (t : Text) : Line := {| line_text := t; line_is_last := false |}.

(** Modelled from the spec: the scan of the buffered text for the
    terminators \r\n, \n and \r. [cur] is the text of the line in progress.
    The result is the complete lines and the remainder, the new carry-over.
    A \r that ends the buffer is not yet known to be a lone \r or the first
    half of \r\n, which must not become two lines: it stays in the
    carry-over. *)
Fixpoint scan (cur : Text) (buf : Text) : list Text * Text :=
  match buf with
  | [] => ([], cur)
  | c :: rest =>
      if (c =? LF)%N then
        let (ls, r) := scan [] rest in (cur :: ls, r)
      else if (c =? CR)%N then
        match rest with
        | [] => ([], cur ++ [c])
        | c' :: rest' =>
            if (c' =? LF)%N
            then let (ls, r) := scan [] rest' in (cur :: ls, r)
            else let (ls, r) := scan [] rest in (cur :: ls, r)
        end
      else scan (cur ++ [c]) rest
  end.

(** Modelled from the spec: the scan at the end of the stream. A final \r
    is a lone \r; a non-empty remainder is the final line, flagged. *)
Fixpoint scan_end (cur : Text) (buf : Text) : list Line :=
  match buf with
  | [] => match cur with [] => [] | _ => [{| line_text := cur; line_is_last := true |}] end
  | c :: rest =>
      if (c =? LF)%N then terminated cur :: scan_end [] rest
      else if (c =? CR)%N then
        match rest with
        | [] => [terminated cur]
        | c' :: rest' =>
            if (c' =? LF)%N
            then terminated cur :: scan_end [] rest'
            else terminated cur :: scan_end [] rest
        end
      else scan_end (cur ++ [c]) rest
  end.

(** Modelled from the spec: the state getLines keeps between chunks. *)
Record Framer := {
  decoder : Utf8Decoder;   (* the partial character *)
  carry : Text;            (* the text after the last terminator found *)
}.

Definition framer_init : Framer := {| decoder := utf8_idle; carry := [] |}.

(** Modelled from the spec: getLines, one chunk. *)
Definition getLines (st : Framer) (chunk : list byte) : Framer * list Line :=
  let (d, text) := utf8_decode (decoder st) chunk in
  let (ls, rest) := scan [] (carry st ++ text) in
  ({| decoder := d; carry := rest |}, List.map terminated ls).

(** Modelled from the spec: getLines at the end of the stream. *)
Definition getLines_end (st : Framer) : list Line :=
  scan_end [] (carry st ++ utf8_flush (decoder st)).

(** Modelled from the spec: the lines getLines hands to the line sink for a
    stream delivered as the given chunks, the end of the stream included. *)
Fixpoint frame_from (st : Framer) (chunks : list (list byte)) : list Line :=
  match chunks with
  | [] => getLines_end st
  | chunk :: chunks' =>
      let (st', ls) := getLines st chunk in
      ls ++ frame_from st' chunks'
  end.

Definition frame (chunks : list (list byte)) : list Line := frame_from framer_init chunks.

(* "a€b\r\nc" *)
Definition sample : list byte := [x61; xe2; x82; xac; x62; x0d; x0a; x63].

Definition no_terminator (t : Text) : Prop :=
  Forall (fun c => (c =? LF)%N = false /\ (c =? CR)%N = false) t.

Local Open Scope string_scope.

(** * Further notions for the orchestrator *)

(** [n] refused attempts, each followed by the firing of the retry timer. *)
Fixpoint rounds (n : nat) (err : JsValue) : list Event :=
  match n with
  | O => []
  | S n' => EvAxiosReject err :: EvTimer :: rounds n' err
  end.

(** The number of live retry timers. *)
Definition timer_live (s : State) : nat :=
  match retryTimer s with Some _ => 1 | None => 0 end.

(** A live retry timer belongs to an orchestrator whose [create] has
    returned. *)
Definition timer_between_attempts (s : State) : Prop :=
  retryTimer s <> None -> phase s = Returned.

(** A rejected promise belongs to a call that is over. *)
Definition rejected_inv (s : State) : Prop :=
  forall v, promise s = Rejected v -> over s.

(** A rejected promise carries a value thrown by the error policy. *)
Definition rejected_by_policy (cfg : NodeEventSourceRequestConfig) (s : State) : Prop :=
  forall v, promise s = Rejected v -> exists t e, onError cfg t e = Throws v.

(** The close hook was called at most once, and if it was, the promise is
    resolved and the call is over. *)
Definition closed_once (s : State) : Prop :=
  closes (trace s) = [] \/
  (closes (trace s) = [ObsClose] /\ promise s = Resolved /\ over s).

(** The header record agrees with [base] on every name but last-event-id,
    and so does the record of every request issued so far. *)
Definition headers_agree (base : gmap string string) (s : State) : Prop :=
  (forall k, k <> LastEventId -> cur_headers s !! k = base !! k) /\
  (forall h, In (ObsRequest h) (trace s) ->
             forall k, k <> LastEventId -> h !! k = base !! k).

(** The record made at call start. *)
Definition initial_record (cfg : NodeEventSourceRequestConfig)
    (h0 : gmap positive (gmap string string)) : gmap string string :=
  cur_headers (nodeEventSource cfg h0).

(* nodeEventSource(url, { onClose() {}, onError: () => true }) *)
Definition hooks_cfg : NodeEventSourceRequestConfig :=
  {| cfg_retryInterval := None; cfg_headers := None; cfg_onOpen := None;
     cfg_onMessage := None; cfg_onClose := Some (fun _ => Returns tt);
     cfg_onError := Some (fun _ _ => Returns VTrue) |}.

(* a response with its header names in lower case *)
Definition lowercase_response : AxiosResponse :=
  {| response_headers := {[ "content-type" := "text/event-stream" ]} |}.

(* nodeEventSource(url, { onError() { throw "fatal" } }) *)
Definition fatal_cfg : NodeEventSourceRequestConfig :=
  {| cfg_retryInterval := None; cfg_headers := None; cfg_onOpen := None;
     cfg_onMessage := None; cfg_onClose := None;
     cfg_onError := Some (fun _ _ => Throws (JsAny "fatal")) |}.

(* nodeEventSource(url, { onOpen() {}, onError: () => true }) *)
Definition open_cfg : NodeEventSourceRequestConfig :=
  {| cfg_retryInterval := None; cfg_headers := None;
     cfg_onOpen := Some (fun _ _ => Returns tt);
     cfg_onMessage := None; cfg_onClose := None;
     cfg_onError := Some (fun _ _ => Returns VTrue) |}.

(** * Proofs *)

Ltac unfold_state :=
  cbv [onAbort resolve reject dispose clearTimeout create idSink retrySink log_if log
       set_heap set_retryInterval set_retryTimer set_aborted set_promise set_phase
       heap headers retryInterval retryTimer aborted promise phase trace cur_headers] in *.

(** Case analysis on one turn of the event loop, innermost test first. *)
Ltac break_step H :=
  unfold step, try_block, catch_block in H; simpl in H;
  repeat (match type of H with
          | context [match ?x with _ => _ end] =>
              lazymatch x with
              | context [match _ with _ => _ end] => fail
              | context [if _ then _ else _] => fail
              | _ => destruct x eqn:?
              end
          | context [if ?x then _ else _] =>
              lazymatch x with
              | context [match _ with _ => _ end] => fail
              | context [if _ then _ else _] => fail
              | _ => destruct x eqn:?
              end
          end; simpl in H; try discriminate H);
  try (injection H as <-).

(** The observations appended by one turn. *)
Ltac trace_ext :=
  first [ exists []; split; [rewrite app_nil_r; reflexivity|]
        | rewrite <- ?app_assoc; eexists; split; [reflexivity|] ];
  simpl.

Ltac break_goal :=
  repeat (match goal with
          | |- context [match ?x with _ => _ end] =>
              lazymatch x with
              | context [match _ with _ => _ end] => fail
              | _ => destruct x eqn:?
              end
          end; simpl in *).

(** ** The orchestrator *)

Section Orchestrator.

Variable cfg : NodeEventSourceRequestConfig.

Lemma run_app s evs1 evs2 :
  run cfg s (evs1 ++ evs2) =
  match run cfg s evs1 with Some s1 => run cfg s1 evs2 | None => None end.
Proof.
  revert s. induction evs1 as [|ev evs1 IH]; intros s; simpl; [reflexivity|].
  destruct (step cfg s ev); [apply IH | reflexivity].
Qed.

(** A call that is over accepts nothing but the caller's abort, which
    changes nothing in it. *)
Lemma step_over s ev s' :
  over s -> step cfg s ev = Some s' ->
  over s' /\ trace s' = trace s /\ (promise s <> Pending -> promise s' = promise s).
Proof.
  intros [[Ha Ht] Hph] H. destruct s as [hp hd ri rt ab pr ph tr].
  simpl in Ha, Ht, Hph. subst ab rt ph. unfold over, torn_down.
  destruct ev as [| | |[| |]| | | |]; try discriminate H.
  injection H as <-. unfold onAbort, resolve. simpl.
  destruct pr; simpl; repeat split; try reflexivity; intros Hne; contradiction.
Qed.

Lemma run_over s evs s' :
  over s -> run cfg s evs = Some s' ->
  over s' /\ trace s' = trace s /\ (promise s <> Pending -> promise s' = promise s).
Proof.
  intros Hov. revert s Hov.
  induction evs as [|ev evs IH]; intros s Hov H; simpl in H.
  - injection H as <-. repeat split; try reflexivity; apply Hov.
  - destruct (step cfg s ev) as [s1|] eqn:Hs; [|discriminate].
    destruct (step_over _ _ _ Hov Hs) as (Hov1 & Ht1 & Hp1).
    destruct (IH _ Hov1 H) as (Hov' & Ht' & Hp').
    split; [exact Hov'|]. split; [congruence|].
    intros Hne. rewrite <- (Hp1 Hne). apply Hp'. rewrite (Hp1 Hne). exact Hne.
Qed.

(** A torn-down orchestrator stays torn down: it starts no attempt,
    schedules none, does not call the error policy, and a settled promise
    keeps its state. The close hook is still called if the byte stream of
    the aborted attempt ends, and then the call is over. *)
Lemma step_torn_down s ev s' :
  torn_down s -> step cfg s ev = Some s' ->
  torn_down s' /\
  requests (trace s') = requests (trace s) /\
  schedules (trace s') = schedules (trace s) /\
  errors (trace s') = errors (trace s) /\
  (promise s <> Pending -> promise s' = promise s) /\
  (closes (trace s') = closes (trace s) \/
   (ev = EvStreamEnd /\ over s' /\
    closes (trace s') = (closes (trace s) ++ [ObsClose])%list)).
Proof.
  intros [Ha Ht] H. destruct s as [hp hd ri rt ab pr ph tr]. simpl in Ha, Ht. subst ab rt.
  unfold requests, schedules, closes, errors, over, torn_down.
  break_step H; unfold_state; simpl in *; break_goal;
    rewrite ?List.filter_app; simpl; rewrite ?app_nil_r;
    (split; [split; reflexivity|]); (split; [reflexivity|]); (split; [reflexivity|]);
    (split; [reflexivity|]); (split; [intros; first [reflexivity | congruence]|]);
    first [ left; reflexivity | right; repeat split; reflexivity ].
Qed.

(** Only the natural end of a byte stream calls the close hook. *)
Lemma step_without_stream_end s ev s' :
  step cfg s ev = Some s' -> ev <> EvStreamEnd ->
  closes (trace s') = closes (trace s).
Proof.
  intros H Hev. destruct s as [hp hd ri rt ab pr ph tr]. unfold closes.
  destruct ev; try (exfalso; apply Hev; reflexivity);
    break_step H; unfold_state; simpl in *; break_goal;
    rewrite ?List.filter_app; simpl; rewrite ?app_nil_r; reflexivity.
Qed.

Lemma run_torn_down s evs s' :
  torn_down s -> run cfg s evs = Some s' ->
  torn_down s' /\
  requests (trace s') = requests (trace s) /\
  schedules (trace s') = schedules (trace s) /\
  errors (trace s') = errors (trace s) /\
  (promise s <> Pending -> promise s' = promise s) /\
  (closes (trace s') = closes (trace s) \/
   closes (trace s') = (closes (trace s) ++ [ObsClose])%list) /\
  (forallb (fun ev => match ev with EvStreamEnd => false | _ => true end) evs = true ->
   closes (trace s') = closes (trace s)).
Proof.
  intros Htd. revert s Htd.
  induction evs as [|ev evs IH]; intros s Htd H; simpl in H.
  - injection H as <-. repeat split; try reflexivity; try apply Htd. left; reflexivity.
  - destruct (step cfg s ev) as [s1|] eqn:Hs; [|discriminate].
    destruct (step_torn_down _ _ _ Htd Hs) as (Htd1 & Hr & Hsc & He & Hp & Hc).
    destruct (IH _ Htd1 H) as (Htd' & Hr' & Hsc' & He' & Hp' & Hc' & Hf').
    split; [exact Htd'|]. split; [congruence|]. split; [congruence|].
    split; [congruence|]. split; [|split].
    + intros Hne. rewrite <- (Hp Hne). apply Hp'. rewrite (Hp Hne). exact Hne.
    + destruct Hc as [Hc | (_ & Hov & Hc)].
      * rewrite <- Hc. exact Hc'.
      * destruct (run_over _ _ _ Hov H) as (_ & Ht & _).
        right. rewrite Ht. exact Hc.
    + simpl. intros Hall. apply andb_prop in Hall as [Hev Hall].
      rewrite (Hf' Hall). apply (step_without_stream_end _ _ _ Hs).
      intros ->. discriminate Hev.
Qed.

Lemma step_settled_inv s ev s' :
  settled_inv s -> step cfg s ev = Some s' -> settled_inv s'.
Proof.
  unfold settled_inv, torn_down. intros Hinv H.
  destruct s as [hp hd ri rt ab pr ph tr]. simpl in Hinv.
  break_step H; unfold_state; simpl in *; break_goal;
    try (intros Hne; split; try reflexivity; try (apply Hinv; exact Hne);
         try (exfalso; apply Hne; reflexivity); try congruence).
  all: try (destruct pr; simpl in *; try congruence;
            try (destruct Hinv; congruence)).
Qed.

Lemma run_settled_inv s evs s' :
  settled_inv s -> run cfg s evs = Some s' -> settled_inv s'.
Proof.
  revert s. induction evs as [|ev evs IH]; intros s Hinv Hrun; simpl in Hrun.
  - injection Hrun as <-. exact Hinv.
  - destruct (step cfg s ev) as [s1|] eqn:Hs; [|discriminate].
    apply (IH s1); [apply (step_settled_inv _ _ _ Hinv Hs) | exact Hrun].
Qed.

(** While the abort handle of the current attempt is live, the promise of a
    call is pending. *)
Lemma live_attempt_is_pending h0 evs s :
  run cfg (nodeEventSource cfg h0) evs = Some s ->
  aborted s = false -> promise s = Pending.
Proof.
  intros Hrun Hab.
  assert (Hinv : settled_inv s).
  { apply (run_settled_inv (nodeEventSource cfg h0) evs); [|exact Hrun].
    intros H. exfalso. apply H. reflexivity. }
  destruct (promise s) eqn:Hp; [reflexivity| |];
    (destruct Hinv as [Ha _]; [rewrite Hp; discriminate | congruence]).
Qed.

(** What a throwing [try] block leaves behind: it neither settles the
    promise nor touches the handle, the timer, the headers or the delay. *)
Lemma try_block_throws s ev s1 err :
  try_block cfg s ev = Some (s1, Some err) ->
  aborted s1 = aborted s /\ promise s1 = promise s /\
  retryTimer s1 = retryTimer s /\ retryInterval s1 = retryInterval s /\
  heap s1 = heap s /\ headers s1 = headers s /\
  requests (trace s1) = requests (trace s) /\
  schedules (trace s1) = schedules (trace s) /\
  errors (trace s1) = errors (trace s).
Proof.
  intros H. destruct s as [hp hd ri rt ab pr ph tr].
  unfold requests, schedules, errors.
  unfold try_block in H; simpl in H.
  destruct ev as [e|r| |[id|retry|m]| |e| |]; destruct ph as [|[u|v]| |];
    simpl in H; try discriminate H.
  - injection H as <- <-. repeat split.
  - injection H as <- <-. repeat split.
  - destruct (cfg_onMessage cfg) as [f|]; [|discriminate].
    destruct (f _ m); [discriminate|]. injection H as <- <-. unfold_state.
    rewrite !List.filter_app. simpl. rewrite !app_nil_r. repeat split.
  - destruct (cfg_onClose cfg) as [f|]; [|discriminate].
    simpl in H. destruct (f _); [discriminate|].
    injection H as <- <-. unfold_state.
    rewrite !List.filter_app. simpl. rewrite !app_nil_r. repeat split.
  - injection H as <- <-. repeat split.
Qed.

(** The catch block under the default policy: the classified error is
    re-thrown by [defaultOnError], the orchestrator is disposed of and the
    promise rejected with it. *)
Lemma catch_block_default err s :
  cfg_onError cfg = None -> aborted s = false ->
  catch_block cfg err s = reject (thrown (classify err)) (dispose (set_phase Returned s)).
Proof.
  intros Hno Hab. unfold catch_block, onError, log_if. rewrite Hno. simpl.
  rewrite Hab. reflexivity.
Qed.

(** C4: when the caller supplied no error policy, every fault on an attempt
    (a throw out of the [try] block while the attempt's abort handle is
    live) makes the pending operation reject with that fault, in the
    classified form [{ type, origin }] whose [origin] is the thrown value;
    no retry is scheduled by that step, and no attempt is started or
    scheduled by anything that happens later. *)
Theorem no_policy_fault_rejects s ev s1 err :
  cfg_onError cfg = None ->
  try_block cfg s ev = Some (s1, Some err) ->
  aborted s = false -> promise s = Pending ->
  exists s',
    step cfg s ev = Some s' /\
    promise s' = Rejected (JsEventSourceError (type (classify err)) err) /\
    retryTimer s' = None /\
    schedules (trace s') = schedules (trace s) /\
    forall evs s'', run cfg s' evs = Some s'' ->
      promise s'' = promise s' /\
      retryTimer s'' = None /\
      schedules (trace s'') = schedules (trace s) /\
      requests (trace s'') = requests (trace s).
Proof.
  intros Hno Htry Hab Hp.
  destruct (try_block_throws _ _ _ _ Htry)
    as (Hab1 & Hp1 & _ & _ & _ & _ & Hrq & Hsc & _).
  assert (Hstep : step cfg s ev = Some (catch_block cfg err s1)).
  { unfold step. destruct ev; try (rewrite Htry; reflexivity);
      unfold try_block in Htry; destruct (phase s) as [|[|]| |]; discriminate. }
  rewrite catch_block_default in Hstep by congruence.
  eexists. split; [exact Hstep|].
  assert (Hpr : promise (reject (thrown (classify err)) (dispose (set_phase Returned s1)))
                = Rejected (JsEventSourceError (type (classify err)) err)).
  { unfold reject. simpl. rewrite Hp1, Hp. reflexivity. }
  assert (Htd : torn_down (reject (thrown (classify err)) (dispose (set_phase Returned s1)))).
  { unfold reject. simpl. rewrite Hp1, Hp. split; reflexivity. }
  assert (Htr : trace (reject (thrown (classify err)) (dispose (set_phase Returned s1)))
                = trace s1).
  { unfold reject. simpl. rewrite Hp1, Hp. reflexivity. }
  split; [exact Hpr|]. split; [apply Htd|]. split; [rewrite Htr; exact Hsc|].
  intros evs s'' Hrun.
  destruct (run_torn_down _ _ _ Htd Hrun) as (Htd' & Hr' & Hs' & _ & Hp' & _).
  split; [apply Hp'; rewrite Hpr; discriminate|].
  split; [apply Htd'|]. rewrite Hr', Hs', Htr. split; assumption.
Qed.

(** C5, as amended: whenever the caller's signal aborts as an event of its
    own, in any state, the retry timer is cleared, the current attempt's
    abort handle is aborted and the operation, if it was not settled before,
    resolves; that step calls no hook, and whatever happens afterwards the
    promise stays resolved, the error policy is never called and no attempt
    is started or scheduled. The close hook is called by no later event but
    the natural end of the byte stream of the aborted attempt, which calls
    it at most once. *)
Theorem abort_signal_resolves s evs s' :
  run cfg s (EvAbort :: evs) = Some s' ->
  step cfg s EvAbort = Some (onAbort s) /\
  retryTimer (onAbort s) = None /\
  aborted (onAbort s) = true /\
  trace (onAbort s) = trace s /\
  (promise s = Pending -> promise (onAbort s) = Resolved /\ promise s' = Resolved) /\
  retryTimer s' = None /\
  aborted s' = true /\
  errors (trace s') = errors (trace s) /\
  schedules (trace s') = schedules (trace s) /\
  requests (trace s') = requests (trace s) /\
  (closes (trace s') = closes (trace s) \/
   closes (trace s') = (closes (trace s) ++ [ObsClose])%list) /\
  (forallb (fun ev => match ev with EvStreamEnd => false | _ => true end) evs = true ->
   closes (trace s') = closes (trace s)).
Proof.
  intros Hrun. simpl in Hrun.
  assert (Htd : torn_down (onAbort s)).
  { unfold onAbort, resolve. simpl. destruct (promise s); split; reflexivity. }
  assert (Htr : trace (onAbort s) = trace s).
  { unfold onAbort, resolve. simpl. destruct (promise s); reflexivity. }
  destruct (run_torn_down _ _ _ Htd Hrun) as (Htd' & Hr & Hs & He & Hp & Hc & Hf).
  rewrite Htr in *.
  split; [reflexivity|]. split; [apply Htd|]. split; [apply Htd|].
  split; [reflexivity|]. split.
  - intros Hpend.
    assert (Hres : promise (onAbort s) = Resolved).
    { unfold onAbort, resolve. simpl. rewrite Hpend. reflexivity. }
    split; [exact Hres|]. rewrite Hp; [exact Hres|]. rewrite Hres. discriminate.
  - split; [apply Htd'|]. split; [apply Htd'|].
    split; [exact He|]. split; [exact Hs|]. split; [exact Hr|].
    split; [exact Hc | exact Hf].
Qed.

(** C7, as amended: on every attempt whose byte stream ends naturally while
    the attempt is live, a close hook that returns normally (or no close hook
    at all) is followed by the operation resolving; the hook, when supplied,
    is called exactly once by that step, no retry is scheduled, and nothing
    that happens later starts or schedules an attempt. *)
Theorem clean_close_resolves s :
  phase s = Streaming -> aborted s = false -> promise s = Pending ->
  (forall f v, cfg_onClose cfg = Some f -> f (trace s ++ [ObsClose])%list <> Throws v) ->
  exists s',
    step cfg s EvStreamEnd = Some s' /\
    trace s' = (trace s ++ match cfg_onClose cfg with Some _ => [ObsClose] | None => [] end)%list /\
    promise s' = Resolved /\
    retryTimer s' = None /\
    forall evs s'', run cfg s' evs = Some s'' ->
      promise s'' = Resolved /\
      closes (trace s'') = closes (trace s') /\
      schedules (trace s'') = schedules (trace s) /\
      requests (trace s'') = requests (trace s).
Proof.
  intros Hph Hab Hp Hok.
  set (s' := set_phase Returned (resolve (dispose (log_if (cfg_onClose cfg) ObsClose s)))).
  assert (Hstep : step cfg s EvStreamEnd = Some s').
  { unfold step, try_block. rewrite Hph. simpl.
    destruct (cfg_onClose cfg) as [f|] eqn:Hc; [|reflexivity].
    simpl. destruct (f (trace s ++ [ObsClose])%list) as [u|v] eqn:Hf; [reflexivity|].
    exfalso. exact (Hok f v eq_refl Hf). }
  assert (Hpr : promise s' = Resolved).
  { unfold s', resolve, log_if. destruct (cfg_onClose cfg); simpl; rewrite Hp; reflexivity. }
  assert (Htd : torn_down s').
  { unfold s', resolve, log_if.
    destruct (cfg_onClose cfg); simpl; rewrite Hp; split; reflexivity. }
  assert (Htr : trace s' = (trace s ++ match cfg_onClose cfg with
                                       | Some _ => [ObsClose] | None => [] end)%list).
  { unfold s', resolve, log_if. destruct (cfg_onClose cfg); simpl; rewrite Hp; simpl;
      rewrite ?app_nil_r; reflexivity. }
  exists s'. split; [exact Hstep|]. split; [exact Htr|].
  split; [exact Hpr|]. split; [apply Htd|].
  intros evs s'' Hrun.
  assert (Hov : over s') by (split; [exact Htd | reflexivity]).
  destruct (run_over _ _ _ Hov Hrun) as (_ & Ht'' & Hp').
  split; [rewrite Hp'; [exact Hpr | rewrite Hpr; discriminate]|].
  split; [rewrite Ht''; reflexivity|].
  rewrite Ht'', Htr. unfold schedules, requests. rewrite !List.filter_app.
  destruct (cfg_onClose cfg); simpl; rewrite !app_nil_r; split; reflexivity.
Qed.

(** ** Headers *)

Lemma idSink_lookup id s :
  cur_headers (idSink id s) !! LastEventId = carried_id id.
Proof.
  unfold idSink, cur_headers, carried_id, truthy.
  destruct id as [x|]; simpl.
  - destruct (String.eqb x EmptyString); simpl; rewrite lookup_insert_eq; simpl.
    + apply lookup_delete_eq.
    + apply lookup_insert_eq.
  - rewrite lookup_insert_eq. simpl. apply lookup_delete_eq.
Qed.

(** One turn changes no record but the one [headers] refers to, and only
    through the id sink; an attempt is started with the record as it is. *)
Lemma step_heap s ev s' :
  step cfg s ev = Some s' ->
  headers s' = headers s /\
  (is_id_sink ev = false -> heap s' = heap s) /\
  (forall l, l <> headers s -> heap s' !! l = heap s !! l) /\
  exists t, trace s' = (trace s ++ t)%list /\
            forall h, In (ObsRequest h) t -> h = cur_headers s.
Proof.
  intros H. destruct s as [hp hd ri rt ab pr ph tr]. unfold cur_headers.
  break_step H; unfold_state; simpl in *; break_goal.
  all: (split; [reflexivity|]).
  all: (split; [first [reflexivity | discriminate | intros _; reflexivity]|]).
  all: (split; [intros l Hl;
                first [reflexivity | rewrite lookup_insert_ne by congruence; reflexivity]|]).
  all: trace_ext; intros h Hin;
    repeat (destruct Hin as [Hin|Hin]; [congruence|]); contradiction.
Qed.

Lemma run_heap s evs s' :
  run cfg s evs = Some s' ->
  headers s' = headers s /\
  (forallb (fun ev => negb (is_id_sink ev)) evs = true -> heap s' = heap s) /\
  (forall l, l <> headers s -> heap s' !! l = heap s !! l) /\
  exists t, trace s' = (trace s ++ t)%list /\
            (forallb (fun ev => negb (is_id_sink ev)) evs = true ->
             forall h, In (ObsRequest h) t -> h = cur_headers s).
Proof.
  revert s. induction evs as [|ev evs IH]; intros s H; simpl in H.
  - injection H as <-. repeat split; try reflexivity.
    exists []. split; [rewrite app_nil_r; reflexivity | intros _ h []].
  - destruct (step cfg s ev) as [s1|] eqn:Hs; [|discriminate].
    destruct (step_heap _ _ _ Hs) as (Hh1 & Hsame1 & Hfr1 & t1 & Ht1 & Hrq1).
    destruct (IH _ H) as (Hh & Hsame & Hfr & t & Ht & Hrq).
    split; [congruence|]. split; [|split].
    + simpl. intros Hall. apply andb_prop in Hall as [Hev Hall].
      rewrite (Hsame Hall). apply Hsame1. destruct (is_id_sink ev); [discriminate|reflexivity].
    + intros l Hl. rewrite Hfr by congruence. apply Hfr1, Hl.
    + exists (t1 ++ t)%list. split; [rewrite Ht, Ht1, app_assoc; reflexivity|].
      simpl. intros Hall h Hin. apply andb_prop in Hall as [Hev Hall].
      apply in_app_or in Hin as [Hin|Hin]; [apply Hrq1, Hin|].
      rewrite (Hrq Hall h Hin). unfold cur_headers. rewrite Hh1.
      rewrite Hsame1; [reflexivity|]. destruct (is_id_sink ev); [discriminate|reflexivity].
Qed.

(** C8: once the id sink has received an id, the header record holds
    last-event-id with that id when the id is non-empty and holds no
    last-event-id when the id is empty or undefined; until the sink is called
    again the record keeps that entry, and every attempt started in the
    meantime is issued with it. *)
Theorem last_event_id_follows_id_sink s id s1 evs s' :
  step cfg s (EvSink (SinkId id)) = Some s1 ->
  forallb (fun ev => negb (is_id_sink ev)) evs = true ->
  run cfg s1 evs = Some s' ->
  (forall x, id = Some x -> x <> EmptyString -> carried_id id = Some x) /\
  (id = Some EmptyString \/ id = None -> carried_id id = None) /\
  cur_headers s1 !! LastEventId = carried_id id /\
  cur_headers s' !! LastEventId = carried_id id /\
  exists t, trace s' = (trace s1 ++ t)%list /\
            forall h, In (ObsRequest h) t -> h !! LastEventId = carried_id id.
Proof.
  intros Hstep Hall Hrun.
  assert (Hs1 : s1 = idSink id s).
  { unfold step, try_block in Hstep. destruct (phase s) as [|[|]| |]; congruence. }
  subst s1.
  destruct (run_heap _ _ _ Hrun) as (Hh & Hsame & _ & t & Ht & Hrq).
  split; [|split; [|split; [|split]]].
  - intros x -> Hx. simpl. destruct (String.eqb_spec x EmptyString); [contradiction|reflexivity].
  - intros [-> | ->]; reflexivity.
  - apply idSink_lookup.
  - unfold cur_headers. rewrite Hh, (Hsame Hall). apply idSink_lookup.
  - exists t. split; [exact Ht|]. intros h Hin.
    rewrite (Hrq Hall h Hin). apply idSink_lookup.
Qed.

Lemma contains_null_nonempty id : contains_null id = true -> String.eqb id EmptyString = false.
Proof. destruct id; [discriminate | reflexivity]. Qed.

(** C2, as amended: an id that contains a null character and is delivered to
    the id sink is stored, unchanged, as the last-event-id header: the sink
    tests the id for emptiness only. *)
Theorem id_sink_keeps_null_id s id s' :
  contains_null id = true ->
  step cfg s (EvSink (SinkId (Some id))) = Some s' ->
  cur_headers s' !! LastEventId = Some id.
Proof.
  intros Hnull Hstep.
  assert (Hs1 : s' = idSink (Some id) s).
  { unfold step, try_block in Hstep. destruct (phase s) as [|[|]| |]; congruence. }
  subst s'. rewrite idSink_lookup. simpl.
  rewrite (contains_null_nonempty _ Hnull). reflexivity.
Qed.

(** The record made at call start holds the caller's entries, with accept
    defaulted to the event-stream MIME type when the caller gave none. *)
Lemma initial_headers h0 :
  let caller := match cfg_headers cfg with
                | Some l => default ∅ (h0 !! l)
                | None => ∅
                end in
  cur_headers (nodeEventSource cfg h0) =
  if truthy (caller !! "accept") then caller
  else <["accept" := EventStreamContentType]> caller.
Proof.
  intros caller. unfold cur_headers. simpl. rewrite lookup_insert_eq. reflexivity.
Qed.

(** C10: throughout a call of [nodeEventSource] the variable [headers]
    refers to a record allocated at call start, distinct from every record
    of the caller's heap, and every record other than that copy, the
    caller-supplied one included, holds what it held at call start. *)
Theorem caller_headers_never_mutated h0 evs s :
  run cfg (nodeEventSource cfg h0) evs = Some s ->
  headers s = fresh (dom h0) /\
  (headers s ∉ dom h0) /\
  (forall l, l <> headers s -> heap s !! l = h0 !! l) /\
  (forall l, is_Some (h0 !! l) -> heap s !! l = h0 !! l).
Proof.
  intros Hrun. destruct (run_heap _ _ _ Hrun) as (Hh & _ & Hfr & _).
  assert (Hfresh : fresh (dom h0) ∉ dom h0) by apply is_fresh.
  change (headers s = fresh (dom h0)) in Hh.
  assert (Hother : forall l, l <> headers s -> heap s !! l = h0 !! l).
  { intros l Hl. rewrite Hfr by (simpl; congruence). simpl.
    rewrite lookup_insert_ne by congruence. reflexivity. }
  split; [exact Hh|]. split; [rewrite Hh; exact Hfresh|]. split; [exact Hother|].
  intros l Hl. apply Hother. intros ->. apply Hfresh. rewrite <- Hh.
  apply elem_of_dom. exact Hl.
Qed.

(** ** The retry delay *)

Lemma step_delay s ev s' :
  step cfg s ev = Some s' ->
  retryInterval s' = current_delay (retryInterval s) [ev] /\
  exists t, trace s' = (trace s ++ t)%list /\
            forall d, In (ObsSchedule d) t -> d = retryInterval s /\ retryTimer s' = Some d.
Proof.
  intros H. destruct s as [hp hd ri rt ab pr ph tr].
  break_step H; unfold_state; simpl in *; break_goal.
  all: (split; [reflexivity|]).
  all: trace_ext; intros d Hin;
    repeat (destruct Hin as [Hin|Hin];
            [first [discriminate | injection Hin as <-; split; reflexivity]|]);
    contradiction.
Qed.

Lemma current_delay_app d evs1 evs2 :
  current_delay d (evs1 ++ evs2) = current_delay (current_delay d evs1) evs2.
Proof.
  revert d. induction evs1 as [|ev evs1 IH]; intros d; simpl; [reflexivity|].
  destruct ev as [| | |[| |]| | | |]; apply IH.
Qed.

Lemma run_delay s evs s' :
  run cfg s evs = Some s' -> retryInterval s' = current_delay (retryInterval s) evs.
Proof.
  revert s. induction evs as [|ev evs IH]; intros s H; simpl in H.
  - injection H as <-. reflexivity.
  - destruct (step cfg s ev) as [s1|] eqn:Hs; [|discriminate].
    rewrite (IH _ H). destruct (step_delay _ _ _ Hs) as [-> _].
    change (ev :: evs) with ([ev] ++ evs)%list. rewrite current_delay_app. reflexivity.
Qed.

(** C9: after any sequence of events the orchestrator's retry delay is the
    value last handed to the retry sink, or the configured [retryInterval]
    (1000 when not configured) if the sink was never called; and every
    [setTimeout(create, delay)] of the next turn uses exactly that delay and
    leaves the timer live. *)
Theorem retry_delay_in_force h0 evs s ev s' :
  run cfg (nodeEventSource cfg h0) evs = Some s ->
  step cfg s ev = Some s' ->
  retryInterval s =
    current_delay (match cfg_retryInterval cfg with Some n => n | None => 1000%Z end) evs /\
  exists t, trace s' = (trace s ++ t)%list /\
            forall d, In (ObsSchedule d) t -> d = retryInterval s /\ retryTimer s' = Some d.
Proof.
  intros Hrun Hstep. split.
  - rewrite (run_delay _ _ _ Hrun). simpl. destruct (cfg_retryInterval cfg); reflexivity.
  - apply (step_delay _ _ _ Hstep).
Qed.

End Orchestrator.

(** ** Open validation *)

Lemma prefix_iff_app p s :
  String.prefix p s = true <-> exists rest, s = p ++ rest.
Proof.
  revert s. induction p as [|a p IH]; intros s.
  - split; [intros _; exists s; reflexivity | intros _; destruct s; reflexivity].
  - destruct s as [|b s]; simpl.
    + split; [discriminate | intros [rest H]; discriminate].
    + destruct (Ascii.ascii_dec a b) as [->|Hne].
      * rewrite IH. split; intros [rest H]; exists rest;
          change (String b p ++ rest) with (String b (p ++ rest)) in *; congruence.
      * split; [discriminate|]. intros [rest H].
        change (String a p ++ rest) with (String a (p ++ rest)) in H. congruence.
Qed.

(** The default validation on the header it reads: with no custom
    [onOpen], a response whose record holds, under the name spelled exactly
    Content-Type, the value text/event-stream, alone or followed by anything,
    passes validation and the attempt goes on to stream its body without
    calling any hook; a response whose record has no entry of that name, or
    one that does not begin with text/event-stream, makes the attempt throw
    an [Error] whose message names the expected and the actual value. *)
Theorem default_open_validation cfg s r :
  cfg_onOpen cfg = None ->
  phase s = Connecting ->
  let contentType := response_headers r !! "Content-Type" in
  exists s1,
    step cfg s (EvAxiosResponse r) = Some s1 /\
    trace s1 = trace s /\
    (contentType = Some "text/event-stream" ->
       step cfg s1 EvOpenSettled = Some (set_phase Streaming s)) /\
    ((exists params, contentType = Some ("text/event-stream" ++ params)) ->
       step cfg s1 EvOpenSettled = Some (set_phase Streaming s)) /\
    ((forall params, contentType <> Some ("text/event-stream" ++ params)) ->
       try_block cfg s1 EvOpenSettled = Some (s1, Some (content_type_error contentType)) /\
       step cfg s1 EvOpenSettled =
         Some (catch_block cfg (content_type_error contentType) s1)).
Proof.
  intros Hno Hph contentType.
  exists (set_phase (Opening (defaultOnOpen r)) s).
  assert (Hpass : (exists params, contentType = Some ("text/event-stream" ++ params)) ->
                  defaultOnOpen r = Returns tt).
  { intros [params Hct]. unfold defaultOnOpen. fold contentType. rewrite Hct.
    assert (Hp : String.prefix EventStreamContentType ("text/event-stream" ++ params) = true).
    { apply prefix_iff_app. exists params. reflexivity. }
    rewrite Hp. reflexivity. }
  split; [|split; [|split; [|split]]].
  - unfold step, try_block, onOpen, log_if. rewrite Hph, Hno. reflexivity.
  - reflexivity.
  - intros Hct. unfold step, try_block. simpl.
    rewrite Hpass; [reflexivity|]. exists EmptyString. exact Hct.
  - intros Hct. unfold step, try_block. simpl. rewrite (Hpass Hct). reflexivity.
  - intros Hct.
    assert (Hfail : defaultOnOpen r = Throws (content_type_error contentType)).
    { unfold defaultOnOpen. fold contentType.
      destruct contentType as [ct|] eqn:E; [|reflexivity].
      destruct (String.prefix EventStreamContentType ct) eqn:Hp; [|reflexivity].
      apply prefix_iff_app in Hp as [params ->]. exfalso. exact (Hct params eq_refl). }
    unfold step, try_block. simpl. rewrite Hfail. split; reflexivity.
Qed.

(** The header is read under the exact name "Content-Type": a record that
    holds the content type under another spelling of the name has, for
    [defaultOnOpen], no content type. *)
Example content_type_name_is_case_sensitive :
  defaultOnOpen {| response_headers := {[ "content-type" := "text/event-stream" ]} |}
  = Throws (JsError "Expected content-type to be text/event-stream, Actual: undefined").
Proof. vm_compute. reflexivity. Qed.

(** C3: the code at a response that declares the event-stream content type
    under the lower-cased header name. [defaultOnOpen] finds no Content-Type
    entry and throws the error for an undefined content type; with no custom
    [onOpen] and no error policy the first attempt fails on it and the
    promise is rejected with that error, classified Other. *)
Theorem lowercase_content_type_is_rejected :
  response_headers lowercase_response !! "content-type" = Some "text/event-stream" /\
  defaultOnOpen lowercase_response =
    Throws (JsError "Expected content-type to be text/event-stream, Actual: undefined") /\
  exists s,
    run plain_cfg (nodeEventSource plain_cfg ∅)
        [EvAxiosResponse lowercase_response; EvOpenSettled] = Some s /\
    phase s = Returned /\
    promise s =
      Rejected (JsEventSourceError Other
        (JsError "Expected content-type to be text/event-stream, Actual: undefined")).
Proof.
  split; [vm_compute; reflexivity|]. split; [vm_compute; reflexivity|].
  eexists. split; [vm_compute; reflexivity|]. split; reflexivity.
Qed.

(** ** Runs of concrete calls *)

(** An orchestrator whose [create] has returned and whose timer is not live
    reacts to nothing but the caller's abort signal. *)
Lemma returned_without_timer_is_stuck cfg s ev :
  phase s = Returned -> retryTimer s = None ->
  step cfg s ev = None \/ ev = EvAbort.
Proof.
  intros Hph Ht. unfold step, try_block. rewrite Hph, Ht.
  destruct ev as [| | |[| |]| | | |]; auto.
Qed.

(** C1: the code at a fault with a non-truthy verdict. The first attempt is
    refused and the policy answers [false] (or returns nothing): no retry is
    scheduled, but the promise is neither rejected nor resolved, and from
    then on no event other than the caller's own abort signal is accepted,
    so the promise stays pending. *)
Theorem falsy_verdict_leaves_promise_pending :
  let outcome v := run (policy_cfg v) (nodeEventSource (policy_cfg v) ∅)
                       [EvAxiosReject refused] in
  (exists s, outcome VFalse = Some s /\
     promise s = Pending /\ retryTimer s = None /\ schedules (trace s) = [] /\
     errors (trace s) = [ObsError {| type := Request; origin := refused |}] /\
     forall ev, step (policy_cfg VFalse) s ev = None \/ ev = EvAbort) /\
  (exists s, outcome VUndefined = Some s /\
     promise s = Pending /\ retryTimer s = None /\ schedules (trace s) = [] /\
     errors (trace s) = [ObsError {| type := Request; origin := refused |}] /\
     forall ev, step (policy_cfg VUndefined) s ev = None \/ ev = EvAbort).
Proof.
  split; (eexists; split; [vm_compute; reflexivity|]);
    (split; [reflexivity|]); (split; [reflexivity|]);
    (split; [vm_compute; reflexivity|]); (split; [vm_compute; reflexivity|]);
    intros ev; apply returned_without_timer_is_stuck; reflexivity.
Qed.

(** C2, counterexample: the id "a\0" handed to the id sink is stored as the
    last-event-id header and sent with the next attempt. *)
Lemma null_id_is_sent_as_last_event_id :
  contains_null null_id = true /\
  exists s,
    run (policy_cfg VTrue) (nodeEventSource (policy_cfg VTrue) ∅)
        [EvAxiosResponse event_stream_response; EvOpenSettled;
         EvSink (SinkId (Some null_id)); EvStreamFault (JsError "aborted"); EvTimer]
      = Some s /\
    cur_headers s !! LastEventId = Some null_id /\
    exists h, last (trace s) = Some (ObsRequest h) /\ h !! LastEventId = Some null_id.
Proof.
  split; [reflexivity|]. eexists. split; [vm_compute; reflexivity|].
  split; [vm_compute; reflexivity|].
  eexists. split; [vm_compute; reflexivity|]. vm_compute. reflexivity.
Qed.

(** C7, counterexample: the stream of the first attempt ends without
    error, the close hook throws and the error policy answers [true]: the
    promise is still pending, a retry is scheduled after 1000 ms, and when
    the timer fires a second attempt is started. *)
Lemma clean_close_retries_when_hook_throws :
  exists s,
    run close_throws_cfg (nodeEventSource close_throws_cfg ∅)
        [EvAxiosResponse event_stream_response; EvOpenSettled; EvStreamEnd] = Some s /\
    promise s = Pending /\
    retryTimer s = Some 1000%Z /\
    closes (trace s) = [ObsClose] /\
    schedules (trace s) = [ObsSchedule 1000] /\
    exists s', step close_throws_cfg s EvTimer = Some s' /\
               length (requests (trace s')) = 2%nat /\ phase s' = Connecting.
Proof.
  eexists. split; [vm_compute; reflexivity|].
  split; [reflexivity|]. split; [reflexivity|].
  split; [vm_compute; reflexivity|]. split; [vm_compute; reflexivity|].
  eexists. split; [vm_compute; reflexivity|]. split; vm_compute; reflexivity.
Qed.

(** C5, counterexample: the caller's signal aborts while [onOpen] is
    awaited; the promise is resolved by the cancellation, the attempt goes
    on, its byte stream ends, and the close hook is called after the
    cancellation. *)
Lemma close_hook_called_after_cancellation :
  exists s0 s,
    run closing_cfg (nodeEventSource closing_cfg ∅)
        [EvAxiosResponse event_stream_response; EvAbort] = Some s0 /\
    promise s0 = Resolved /\
    aborted s0 = true /\
    closes (trace s0) = [] /\
    run closing_cfg s0 [EvOpenSettled; EvStreamEnd] = Some s /\
    closes (trace s) = [ObsClose].
Proof.
  eexists. eexists. split; [vm_compute; reflexivity|].
  split; [reflexivity|]. split; [reflexivity|]. split; [vm_compute; reflexivity|].
  split; vm_compute; reflexivity.
Qed.

(** ** The line framer *)

Local Close Scope string_scope.

Example frame_whole :
  frame [sample] = [terminated [0x61; 0x20AC; 0x62]%N; {| line_text := [0x63%N]; line_is_last := true |}].
Proof. vm_compute. reflexivity. Qed.

Example frame_crlf_across_chunks :
  frame [[x61; x0d]; [x0a; x62; x0a]] = [terminated [0x61]%N; terminated [0x62]%N].
Proof. vm_compute. reflexivity. Qed.

Example frame_lone_cr_at_end : frame [[x61; x0d]] = [terminated [0x61]%N].
Proof. vm_compute. reflexivity. Qed.

Example frame_lone_cr_between_chunks :
  frame [[x61; x0d]; [x62]] =
  [terminated [0x61]%N; {| line_text := [0x62]%N; line_is_last := true |}].
Proof. vm_compute. reflexivity. Qed.

Example frame_unfinished_character :
  frame [[x61; xe2; x82]] = [{| line_text := [0x61; REPLACEMENT]%N; line_is_last := true |}].
Proof. vm_compute. reflexivity. Qed.

Example frame_split :
  frame [[x61; xe2]; [x82]; [xac; x62; x0d]; [x0a; x63]] = frame [sample].
Proof. vm_compute. reflexivity. Qed.

Lemma utf8_decode_app d a b :
  utf8_decode d (a ++ b) =
  let (d1, o1) := utf8_decode d a in
  let (d2, o2) := utf8_decode d1 b in (d2, o1 ++ o2).
Proof.
  revert d. induction a as [|x a IH]; intros d; simpl.
  - destruct (utf8_decode d b). reflexivity.
  - destruct (utf8_byte d (Byte.to_N x)) as [d1 o1]. rewrite IH.
    destruct (utf8_decode d1 a) as [d2 o2].
    destruct (utf8_decode d2 b) as [d3 o3]. rewrite app_assoc. reflexivity.
Qed.

Lemma scan_no_terminator cur body zs :
  no_terminator body -> scan cur (body ++ zs) = scan (cur ++ body) zs.
Proof.
  intros H. revert cur. induction H as [|c body [Hlf Hcr] _ IH]; intros cur; simpl.
  - rewrite app_nil_r. reflexivity.
  - rewrite Hlf, Hcr, IH, <- app_assoc. reflexivity.
Qed.

Lemma scan_end_no_terminator cur body zs :
  no_terminator body -> scan_end cur (body ++ zs) = scan_end (cur ++ body) zs.
Proof.
  intros H. revert cur. induction H as [|c body [Hlf Hcr] _ IH]; intros cur; simpl.
  - rewrite app_nil_r. reflexivity.
  - rewrite Hlf, Hcr, IH, <- app_assoc. reflexivity.
Qed.

Lemma no_terminator_snoc cur c :
  no_terminator cur -> (c =? LF)%N = false -> (c =? CR)%N = false ->
  no_terminator (cur ++ [c]).
Proof.
  intros H Hlf Hcr. apply Forall_app. split; [exact H|]. constructor; [split; assumption | constructor].
Qed.

(** The equations of [scan]. *)
Lemma scan_lf cur c rest :
  (c =? LF)%N = true ->
  scan cur (c :: rest) = let (ls, r) := scan [] rest in (cur :: ls, r).
Proof. intros H. simpl. rewrite H. reflexivity. Qed.

Lemma scan_cr_last cur c :
  (c =? LF)%N = false -> (c =? CR)%N = true -> scan cur [c] = ([], cur ++ [c]).
Proof. intros H1 H2. simpl. rewrite H1, H2. reflexivity. Qed.

Lemma scan_cr_lf cur c c' rest :
  (c =? LF)%N = false -> (c =? CR)%N = true -> (c' =? LF)%N = true ->
  scan cur (c :: c' :: rest) = let (ls, r) := scan [] rest in (cur :: ls, r).
Proof. intros H1 H2 H3. cbn [scan]. rewrite H1, H2, H3. reflexivity. Qed.

Lemma scan_cr_other cur c c' rest :
  (c =? LF)%N = false -> (c =? CR)%N = true -> (c' =? LF)%N = false ->
  scan cur (c :: c' :: rest) = let (ls, r) := scan [] (c' :: rest) in (cur :: ls, r).
Proof.
  intros H1 H2 H3. change (scan cur (c :: c' :: rest)) with
    (if (c =? LF)%N then let (ls, r) := scan [] (c' :: rest) in (cur :: ls, r)
     else if (c =? CR)%N then
       if (c' =? LF)%N then let (ls, r) := scan [] rest in (cur :: ls, r)
       else let (ls, r) := scan [] (c' :: rest) in (cur :: ls, r)
     else scan (cur ++ [c]) (c' :: rest)).
  rewrite H1, H2, H3. reflexivity.
Qed.

Lemma scan_other cur c rest :
  (c =? LF)%N = false -> (c =? CR)%N = false ->
  scan cur (c :: rest) = scan (cur ++ [c]) rest.
Proof. intros H1 H2. simpl. rewrite H1, H2. reflexivity. Qed.

(** Scanning a buffer in two parts, the carry-over of the first scanned
    again with the second, finds the same lines. *)
Lemma scan_app_bounded n : forall xs cur ys,
  (length xs <= n)%nat -> no_terminator cur ->
  scan cur (xs ++ ys) =
  let (l1, r1) := scan cur xs in
  let (l2, r2) := scan [] (r1 ++ ys) in (l1 ++ l2, r2).
Proof.
  assert (Hbase : forall cur ys, no_terminator cur ->
            scan cur ys = let (l2, r2) := scan [] (cur ++ ys) in ([] ++ l2, r2)).
  { intros cur ys Hcur. rewrite (scan_no_terminator [] cur ys Hcur).
    cbn [app]. destruct (scan cur ys). reflexivity. }
  induction n as [|n IH]; intros xs cur ys Hlen Hcur.
  - destruct xs; [|simpl in Hlen; lia]. apply Hbase, Hcur.
  - destruct xs as [|c rest]; [apply Hbase, Hcur|].
    simpl in Hlen. cbn [app].
    destruct (c =? LF)%N eqn:Hlf.
    { rewrite !scan_lf by assumption.
      rewrite (IH rest [] ys) by (try constructor; lia).
      destruct (scan [] rest) as [l1 r1]. destruct (scan [] (r1 ++ ys)). reflexivity. }
    destruct (c =? CR)%N eqn:Hcr.
    { destruct rest as [|c' rest'].
      - rewrite (scan_cr_last cur c Hlf Hcr). cbn [app].
        rewrite <- app_assoc. cbn [app].
        rewrite (scan_no_terminator [] cur (c :: ys) Hcur). cbn [app].
        destruct (scan cur (c :: ys)). reflexivity.
      - simpl in Hlen. cbn [app].
        destruct (c' =? LF)%N eqn:Hlf'.
        + rewrite !scan_cr_lf by assumption.
          rewrite (IH rest' [] ys) by (try constructor; lia).
          destruct (scan [] rest') as [l1 r1]. destruct (scan [] (r1 ++ ys)). reflexivity.
        + rewrite !scan_cr_other by assumption.
          change (c' :: (rest' ++ ys)) with ((c' :: rest') ++ ys).
          rewrite (IH (c' :: rest') [] ys) by (try constructor; simpl; lia).
          destruct (scan [] (c' :: rest')) as [l1 r1].
          destruct (scan [] (r1 ++ ys)). reflexivity. }
    rewrite !scan_other by assumption.
    apply IH; [lia|]. apply no_terminator_snoc; assumption.
Qed.

Lemma scan_app xs ys :
  scan [] (xs ++ ys) =
  let (l1, r1) := scan [] xs in
  let (l2, r2) := scan [] (r1 ++ ys) in (l1 ++ l2, r2).
Proof. apply (scan_app_bounded (length xs)); [lia | constructor]. Qed.

(** The equations of [scan_end]. *)
Lemma scan_end_lf cur c rest :
  (c =? LF)%N = true ->
  scan_end cur (c :: rest) = terminated cur :: scan_end [] rest.
Proof. intros H. simpl. rewrite H. reflexivity. Qed.

Lemma scan_end_cr_lf cur c c' rest :
  (c =? LF)%N = false -> (c =? CR)%N = true -> (c' =? LF)%N = true ->
  scan_end cur (c :: c' :: rest) = terminated cur :: scan_end [] rest.
Proof. intros H1 H2 H3. cbn [scan_end]. rewrite H1, H2, H3. reflexivity. Qed.

Lemma scan_end_cr_other cur c c' rest :
  (c =? LF)%N = false -> (c =? CR)%N = true -> (c' =? LF)%N = false ->
  scan_end cur (c :: c' :: rest) = terminated cur :: scan_end [] (c' :: rest).
Proof.
  intros H1 H2 H3. change (scan_end cur (c :: c' :: rest)) with
    (if (c =? LF)%N then terminated cur :: scan_end [] (c' :: rest)
     else if (c =? CR)%N then
       if (c' =? LF)%N then terminated cur :: scan_end [] rest
       else terminated cur :: scan_end [] (c' :: rest)
     else scan_end (cur ++ [c]) (c' :: rest)).
  rewrite H1, H2, H3. reflexivity.
Qed.

Lemma scan_end_other cur c rest :
  (c =? LF)%N = false -> (c =? CR)%N = false ->
  scan_end cur (c :: rest) = scan_end (cur ++ [c]) rest.
Proof. intros H1 H2. simpl. rewrite H1, H2. reflexivity. Qed.

(** The end-of-stream scan of a buffer is the scan of its first part
    followed by the end-of-stream scan of the carry-over and the rest. *)
Lemma scan_end_app_bounded n : forall xs cur ys,
  (length xs <= n)%nat -> no_terminator cur ->
  scan_end cur (xs ++ ys) =
  let (l1, r1) := scan cur xs in
  List.map terminated l1 ++ scan_end [] (r1 ++ ys).
Proof.
  assert (Hbase : forall cur ys, no_terminator cur ->
            scan_end cur ys = List.map terminated [] ++ scan_end [] (cur ++ ys)).
  { intros cur ys Hcur. rewrite (scan_end_no_terminator [] cur ys Hcur). reflexivity. }
  induction n as [|n IH]; intros xs cur ys Hlen Hcur.
  - destruct xs; [|simpl in Hlen; lia]. apply Hbase, Hcur.
  - destruct xs as [|c rest]; [apply Hbase, Hcur|].
    simpl in Hlen. cbn [app].
    destruct (c =? LF)%N eqn:Hlf.
    { rewrite scan_end_lf, scan_lf by assumption.
      rewrite (IH rest [] ys) by (try constructor; lia).
      destruct (scan [] rest) as [l1 r1]. reflexivity. }
    destruct (c =? CR)%N eqn:Hcr.
    { destruct rest as [|c' rest'].
      - rewrite (scan_cr_last cur c Hlf Hcr). cbn [app List.map].
        rewrite <- app_assoc. cbn [app].
        rewrite (scan_end_no_terminator [] cur (c :: ys) Hcur). reflexivity.
      - simpl in Hlen. cbn [app].
        destruct (c' =? LF)%N eqn:Hlf'.
        + rewrite scan_end_cr_lf, scan_cr_lf by assumption.
          rewrite (IH rest' [] ys) by (try constructor; lia).
          destruct (scan [] rest') as [l1 r1]. reflexivity.
        + rewrite scan_end_cr_other, scan_cr_other by assumption.
          change (c' :: (rest' ++ ys)) with ((c' :: rest') ++ ys).
          rewrite (IH (c' :: rest') [] ys) by (try constructor; simpl; lia).
          destruct (scan [] (c' :: rest')) as [l1 r1]. reflexivity. }
    rewrite scan_end_other, scan_other by assumption.
    apply IH; [lia|]. apply no_terminator_snoc; assumption.
Qed.

Lemma scan_end_app xs ys :
  scan_end [] (xs ++ ys) =
  let (l1, r1) := scan [] xs in
  List.map terminated l1 ++ scan_end [] (r1 ++ ys).
Proof. apply (scan_end_app_bounded (length xs)); [lia | constructor]. Qed.

(** Two chunks in a row frame as their concatenation. *)
Lemma frame_from_merge st c1 c2 chunks :
  frame_from st (c1 :: c2 :: chunks) = frame_from st ((c1 ++ c2) :: chunks).
Proof.
  cbn [frame_from]. unfold getLines. rewrite utf8_decode_app.
  destruct (utf8_decode (decoder st) c1) as [d1 t1]. cbn [decoder carry].
  destruct (utf8_decode d1 c2) as [d2 t2] eqn:Hd2.
  rewrite (app_assoc (carry st) t1 t2), (scan_app (carry st ++ t1) t2).
  destruct (scan [] (carry st ++ t1)) as [l1 r1]. cbn [decoder carry].
  rewrite Hd2.
  destruct (scan [] (r1 ++ t2)) as [l2 r2].
  rewrite List.map_app, <- app_assoc. reflexivity.
Qed.

(** An empty chunk before the end changes nothing. *)
Lemma frame_from_empty st : frame_from st [[]] = frame_from st [].
Proof.
  cbn [frame_from]. unfold getLines, getLines_end. cbn [utf8_decode].
  rewrite app_nil_r.
  pose proof (scan_end_app (carry st) (utf8_flush (decoder st))) as H.
  destruct (scan [] (carry st)) as [l1 r1]. cbn [decoder carry]. symmetry. exact H.
Qed.

Lemma frame_from_concat chunks : forall st,
  frame_from st chunks = frame_from st [concat chunks].
Proof.
  induction chunks as [|c chunks IH]; intros st.
  - symmetry. apply frame_from_empty.
  - cbn [concat]. rewrite <- frame_from_merge.
    cbn [frame_from]. destruct (getLines st c) as [st' ls].
    rewrite (IH st'). reflexivity.
Qed.

(** C6: however a byte sequence is cut into chunks, the line framer hands
    the same lines to the line sink: the same texts, in the same order, with
    the same end-of-stream flags. *)
Theorem frame_independent_of_chunking (chunks1 chunks2 : list (list byte)) :
  concat chunks1 = concat chunks2 -> frame chunks1 = frame chunks2.
Proof.
  intros H. unfold frame.
  rewrite (frame_from_concat chunks1), (frame_from_concat chunks2), H. reflexivity.
Qed.

(** ** The theorems at concrete calls *)

Local Open Scope string_scope.

Lemma id_sink_keeps_null_id_witness :
  contains_null null_id = true /\
  step plain_cfg (streaming plain_cfg) (EvSink (SinkId (Some null_id)))
    = Some (idSink (Some null_id) (streaming plain_cfg)) /\
  cur_headers (idSink (Some null_id) (streaming plain_cfg)) !! LastEventId = Some null_id.
Proof.
  assert (h1 : contains_null null_id = true) by reflexivity.
  assert (h2 : step plain_cfg (streaming plain_cfg) (EvSink (SinkId (Some null_id)))
               = Some (idSink (Some null_id) (streaming plain_cfg))) by reflexivity.
  split; [exact h1|]. split; [exact h2|].
  exact (id_sink_keeps_null_id plain_cfg _ _ _ h1 h2).
Defined.

Lemma default_open_validation_witness :
  cfg_onOpen plain_cfg = None /\
  phase (nodeEventSource plain_cfg ∅) = Connecting /\
  response_headers event_stream_response !! "Content-Type" = Some "text/event-stream" /\
  (forall params, response_headers html_response !! "Content-Type"
                  <> Some ("text/event-stream" ++ params)) /\
  (exists s1,
     step plain_cfg (nodeEventSource plain_cfg ∅) (EvAxiosResponse event_stream_response)
       = Some s1 /\
     step plain_cfg s1 EvOpenSettled = Some (streaming plain_cfg)) /\
  (exists s1,
     step plain_cfg (nodeEventSource plain_cfg ∅) (EvAxiosResponse html_response) = Some s1 /\
     try_block plain_cfg s1 EvOpenSettled =
       Some (s1, Some (JsError "Expected content-type to be text/event-stream, Actual: text/html"))).
Proof.
  assert (h1 : cfg_onOpen plain_cfg = None) by reflexivity.
  assert (h2 : phase (nodeEventSource plain_cfg ∅) = Connecting) by reflexivity.
  assert (h3 : response_headers event_stream_response !! "Content-Type"
               = Some "text/event-stream") by (vm_compute; reflexivity).
  assert (h4 : forall params, response_headers html_response !! "Content-Type"
                              <> Some ("text/event-stream" ++ params)).
  { intros params H. vm_compute in H. discriminate H. }
  split; [exact h1|]. split; [exact h2|]. split; [exact h3|]. split; [exact h4|].
  split.
  - destruct (default_open_validation plain_cfg _ event_stream_response h1 h2)
      as (s1 & Hs1 & _ & Hpass & _).
    exists s1. split; [exact Hs1 | exact (Hpass h3)].
  - destruct (default_open_validation plain_cfg _ html_response h1 h2)
      as (s1 & Hs1 & _ & _ & _ & Hfail).
    exists s1. split; [exact Hs1 | exact (proj1 (Hfail h4))].
Defined.

Lemma no_policy_fault_rejects_witness :
  cfg_onError plain_cfg = None /\
  try_block plain_cfg (nodeEventSource plain_cfg ∅) (EvAxiosReject refused)
    = Some (nodeEventSource plain_cfg ∅, Some refused) /\
  aborted (nodeEventSource plain_cfg ∅) = false /\
  promise (nodeEventSource plain_cfg ∅) = Pending /\
  exists s',
    step plain_cfg (nodeEventSource plain_cfg ∅) (EvAxiosReject refused) = Some s' /\
    promise s' = Rejected (JsEventSourceError Request refused) /\
    retryTimer s' = None.
Proof.
  assert (h1 : cfg_onError plain_cfg = None) by reflexivity.
  assert (h2 : try_block plain_cfg (nodeEventSource plain_cfg ∅) (EvAxiosReject refused)
               = Some (nodeEventSource plain_cfg ∅, Some refused)) by reflexivity.
  assert (h3 : aborted (nodeEventSource plain_cfg ∅) = false) by reflexivity.
  assert (h4 : promise (nodeEventSource plain_cfg ∅) = Pending) by reflexivity.
  split; [exact h1|]. split; [exact h2|]. split; [exact h3|]. split; [exact h4|].
  destruct (no_policy_fault_rejects plain_cfg _ _ _ _ h1 h2 h3 h4)
    as (s' & Hs & Hp & Ht & _).
  exists s'. split; [exact Hs|]. split; [exact Hp | exact Ht].
Defined.

Lemma abort_signal_resolves_witness :
  let s := streaming hooks_cfg in
  let evs := [EvStreamFault (JsError "aborted")] in
  let s' := after hooks_cfg s (EvAbort :: evs) in
  run hooks_cfg s (EvAbort :: evs) = Some s' /\
  promise s = Pending /\
  forallb (fun ev => match ev with EvStreamEnd => false | _ => true end) evs = true /\
  promise s' = Resolved /\
  retryTimer s' = None /\
  aborted s' = true /\
  errors (trace s') = errors (trace s) /\
  schedules (trace s') = schedules (trace s) /\
  requests (trace s') = requests (trace s) /\
  closes (trace s') = closes (trace s).
Proof.
  intros s evs s'.
  assert (h1 : run hooks_cfg s (EvAbort :: evs) = Some s') by (vm_compute; reflexivity).
  assert (h2 : promise s = Pending) by reflexivity.
  assert (h3 : forallb (fun ev => match ev with EvStreamEnd => false | _ => true end) evs
               = true) by reflexivity.
  split; [exact h1|]. split; [exact h2|]. split; [exact h3|].
  destruct (abort_signal_resolves hooks_cfg s evs s' h1)
    as (_ & _ & _ & _ & Hp & Ht & Ha & He & Hs & Hr & _ & Hc).
  split; [exact (proj2 (Hp h2))|]. split; [exact Ht|]. split; [exact Ha|].
  split; [exact He|]. split; [exact Hs|]. split; [exact Hr | exact (Hc h3)].
Defined.

Lemma clean_close_resolves_witness :
  phase (streaming closing_cfg) = Streaming /\
  aborted (streaming closing_cfg) = false /\
  promise (streaming closing_cfg) = Pending /\
  (forall f v, cfg_onClose closing_cfg = Some f ->
               f (trace (streaming closing_cfg) ++ [ObsClose])%list <> Throws v) /\
  exists s',
    step closing_cfg (streaming closing_cfg) EvStreamEnd = Some s' /\
    trace s' = (trace (streaming closing_cfg) ++ [ObsClose])%list /\
    promise s' = Resolved /\
    retryTimer s' = None.
Proof.
  assert (h1 : phase (streaming closing_cfg) = Streaming) by reflexivity.
  assert (h2 : aborted (streaming closing_cfg) = false) by reflexivity.
  assert (h3 : promise (streaming closing_cfg) = Pending) by reflexivity.
  assert (h4 : forall f v, cfg_onClose closing_cfg = Some f ->
                 f (trace (streaming closing_cfg) ++ [ObsClose])%list <> Throws v).
  { intros f v Hf. injection Hf as <-. discriminate. }
  split; [exact h1|]. split; [exact h2|]. split; [exact h3|]. split; [exact h4|].
  destruct (clean_close_resolves closing_cfg _ h1 h2 h3 h4) as (s' & Hs & Htr & Hp & Ht & _).
  exists s'. split; [exact Hs|]. split; [exact Htr|]. split; [exact Hp | exact Ht].
Defined.

Lemma last_event_id_follows_id_sink_witness :
  let cfg := policy_cfg VTrue in
  let s1 := idSink (Some "42") (streaming cfg) in
  let evs := [EvStreamFault (JsError "reset"); EvTimer] in
  step cfg (streaming cfg) (EvSink (SinkId (Some "42"))) = Some s1 /\
  forallb (fun ev => negb (is_id_sink ev)) evs = true /\
  run cfg s1 evs = Some (after cfg s1 evs) /\
  cur_headers (after cfg s1 evs) !! LastEventId = Some "42" /\
  exists t, trace (after cfg s1 evs) = (trace s1 ++ t)%list /\
            forall h, In (ObsRequest h) t -> h !! LastEventId = Some "42".
Proof.
  intros cfg s1 evs.
  assert (h1 : step cfg (streaming cfg) (EvSink (SinkId (Some "42"))) = Some s1) by reflexivity.
  assert (h2 : forallb (fun ev => negb (is_id_sink ev)) evs = true) by reflexivity.
  assert (h3 : run cfg s1 evs = Some (after cfg s1 evs)) by (vm_compute; reflexivity).
  split; [exact h1|]. split; [exact h2|]. split; [exact h3|].
  destruct (last_event_id_follows_id_sink cfg _ _ _ _ _ h1 h2 h3)
    as (_ & _ & _ & Hcur & Hreq).
  split; [exact Hcur | exact Hreq].
Defined.

Lemma retry_delay_in_force_witness :
  let cfg := policy_cfg VTrue in
  let evs := [EvAxiosResponse event_stream_response; EvOpenSettled; EvSink (SinkRetry 3000)] in
  let s := after cfg (nodeEventSource cfg ∅) evs in
  let ev := EvStreamFault (JsError "reset") in
  run cfg (nodeEventSource cfg ∅) evs = Some s /\
  step cfg s ev = Some (after cfg s [ev]) /\
  retryInterval s = 3000%Z /\
  exists t, trace (after cfg s [ev]) = (trace s ++ t)%list /\
            forall d, In (ObsSchedule d) t ->
                      d = retryInterval s /\ retryTimer (after cfg s [ev]) = Some d.
Proof.
  intros cfg evs s ev.
  assert (h1 : run cfg (nodeEventSource cfg ∅) evs = Some s) by (vm_compute; reflexivity).
  assert (h2 : step cfg s ev = Some (after cfg s [ev])) by (vm_compute; reflexivity).
  split; [exact h1|]. split; [exact h2|].
  destruct (retry_delay_in_force cfg ∅ evs s ev _ h1 h2) as (Hd & Ht).
  split; [exact Hd | exact Ht].
Defined.

Lemma caller_headers_never_mutated_witness :
  let evs := [EvAxiosResponse event_stream_response; EvOpenSettled;
              EvSink (SinkId (Some "42")); EvStreamFault (JsError "reset"); EvTimer] in
  let s := after headers_cfg (nodeEventSource headers_cfg caller_heap) evs in
  run headers_cfg (nodeEventSource headers_cfg caller_heap) evs = Some s /\
  is_Some (caller_heap !! 1%positive) /\
  heap s !! 1%positive = caller_heap !! 1%positive /\
  (headers s ∉ dom caller_heap).
Proof.
  intros evs s.
  assert (h1 : run headers_cfg (nodeEventSource headers_cfg caller_heap) evs = Some s)
    by (vm_compute; reflexivity).
  assert (h2 : is_Some (caller_heap !! 1%positive)) by (eexists; reflexivity).
  split; [exact h1|]. split; [exact h2|].
  destruct (caller_headers_never_mutated headers_cfg caller_heap evs s h1)
    as (_ & Hfresh & _ & Hsame).
  split; [exact (Hsame _ h2) | exact Hfresh].
Defined.

Local Close Scope string_scope.

Lemma frame_independent_of_chunking_witness :
  concat [[x61; xe2]; [x82]; [xac; x62; x0d]; [x0a; x63]] = concat [sample] /\
  frame [[x61; xe2]; [x82]; [xac; x62; x0d]; [x0a; x63]] = frame [sample].
Proof.
  assert (h1 : concat [[x61; xe2]; [x82]; [xac; x62; x0d]; [x0a; x63]] = concat [sample])
    by reflexivity.
  split; [exact h1|]. exact (frame_independent_of_chunking _ _ h1).
Defined.

(** * Further properties of the orchestrator *)

Local Open Scope string_scope.

Section MoreOrchestrator.

Variable cfg : NodeEventSourceRequestConfig.

(** A throw out of the [try] block is handled by the catch block. *)
Lemma step_of_throw s ev s1 err :
  try_block cfg s ev = Some (s1, Some err) ->
  step cfg s ev = Some (catch_block cfg err s1).
Proof.
  intros Htry. unfold step.
  destruct ev; try (rewrite Htry; reflexivity);
    unfold try_block in Htry; destruct (phase s) as [|[|]| |]; discriminate.
Qed.

(** Every fault of a live attempt is reported to the caller's error policy
    exactly once, as [{ type, origin }] with [type] = Request when the
    thrown value is an AxiosError and Other otherwise, and [origin] the
    thrown value itself. *)
Theorem fault_is_reported_once s ev s1 err f :
  cfg_onError cfg = Some f ->
  try_block cfg s ev = Some (s1, Some err) ->
  aborted s = false ->
  exists s',
    step cfg s ev = Some s' /\
    errors (trace s') =
      (errors (trace s) ++
       [ObsError {| type := if instanceofAxiosError err then Request else Other;
                    origin := err |}])%list.
Proof.
  intros Hf Htry Hab.
  destruct (try_block_throws _ _ _ _ _ Htry) as (Hab1 & _ & _ & _ & _ & _ & _ & _ & Herr).
  exists (catch_block cfg err s1). split; [apply step_of_throw, Htry|].
  rewrite <- Herr. unfold catch_block, log_if. simpl. rewrite Hab1, Hab, Hf.
  unfold errors. simpl.
  destruct (onError cfg _ _) as [v|v]; [destruct (nullish v false)|];
    unfold reject; simpl; try destruct (promise s1); simpl;
    rewrite ?List.filter_app; simpl; rewrite ?app_nil_r; reflexivity.
Qed.

(** When the error policy answers [true], the promise stays pending and
    exactly one retry is scheduled with the current delay; when the timer
    fires, a new attempt is started with a fresh, live abort handle and the
    header record as it is then. *)
Theorem truthy_verdict_starts_new_attempt s ev s1 err f :
  cfg_onError cfg = Some f ->
  try_block cfg s ev = Some (s1, Some err) ->
  aborted s = false ->
  f (trace s1 ++ [ObsError (classify err)])%list (classify err) = Returns VTrue ->
  exists s' s'',
    step cfg s ev = Some s' /\
    promise s' = promise s /\
    retryTimer s' = Some (retryInterval s) /\
    phase s' = Returned /\
    aborted s' = false /\
    step cfg s' EvTimer = Some s'' /\
    phase s'' = Connecting /\
    aborted s'' = false /\
    retryTimer s'' = None /\
    promise s'' = promise s /\
    trace s'' = (trace s1 ++ [ObsError (classify err); ObsSchedule (retryInterval s);
                              ObsRequest (cur_headers s)])%list.
Proof.
  intros Hf Htry Hab Hv.
  destruct (try_block_throws _ _ _ _ _ Htry)
    as (Hab1 & Hp1 & _ & Hri & Hheap & Hhd & _).
  assert (Hc : catch_block cfg err s1 =
               log (ObsSchedule (retryInterval s1))
                 (set_retryTimer (Some (retryInterval s1))
                    (log (ObsError (classify err)) (set_phase Returned s1)))).
  { unfold catch_block, onError, log_if. simpl. rewrite Hab1, Hab, Hf. simpl.
    rewrite Hv. reflexivity. }
  eexists. eexists. split; [rewrite (step_of_throw _ _ _ _ Htry), Hc; reflexivity|].
  simpl. rewrite Hp1, Hri, Hab1, Hab.
  repeat (split; [reflexivity|]).
  split; [simpl; exact Hp1|].
  unfold create, cur_headers. simpl. rewrite Hheap, Hhd, <- !app_assoc. reflexivity.
Qed.

(** When the error policy throws, the pending promise is rejected with the
    value the policy threw, whatever the fault was; no retry is scheduled
    then or later and no attempt is ever started again. *)
Theorem throwing_policy_rejects s ev s1 err f v :
  cfg_onError cfg = Some f ->
  try_block cfg s ev = Some (s1, Some err) ->
  aborted s = false -> promise s = Pending ->
  f (trace s1 ++ [ObsError (classify err)])%list (classify err) = Throws v ->
  exists s',
    step cfg s ev = Some s' /\
    promise s' = Rejected v /\
    retryTimer s' = None /\
    aborted s' = true /\
    forall evs s'', run cfg s' evs = Some s'' ->
      promise s'' = Rejected v /\
      schedules (trace s'') = schedules (trace s) /\
      requests (trace s'') = requests (trace s).
Proof.
  intros Hf Htry Hab Hp Hv.
  destruct (try_block_throws _ _ _ _ _ Htry)
    as (Hab1 & Hp1 & _ & _ & _ & _ & Hrq & Hsc & _).
  assert (Hc : catch_block cfg err s1 =
               set_promise (Rejected v)
                 (dispose (log (ObsError (classify err)) (set_phase Returned s1)))).
  { unfold catch_block, onError, log_if, reject. simpl. rewrite Hab1, Hab, Hf. simpl.
    rewrite Hv. simpl. rewrite Hp1, Hp. reflexivity. }
  eexists. split; [rewrite (step_of_throw _ _ _ _ Htry), Hc; reflexivity|].
  repeat (split; [reflexivity|]).
  intros evs s'' Hrun.
  assert (Htd : torn_down (set_promise (Rejected v)
                  (dispose (log (ObsError (classify err)) (set_phase Returned s1)))))
    by (split; reflexivity).
  destruct (run_torn_down _ _ _ _ Htd Hrun) as (_ & Hr' & Hs' & _ & Hp' & _).
  split; [apply Hp'; discriminate|].
  rewrite Hr', Hs'. unfold schedules, requests in *. simpl.
  rewrite !List.filter_app. simpl. rewrite !app_nil_r. split; assumption.
Qed.

(** ** Invariants of a call *)

Lemma step_timer_between_attempts s ev s' :
  timer_between_attempts s -> step cfg s ev = Some s' -> timer_between_attempts s'.
Proof.
  unfold timer_between_attempts. intros Hbt H.
  destruct s as [hp hd ri rt ab pr ph tr]. simpl in Hbt.
  break_step H; unfold_state; simpl in *; break_goal; intros Hne;
    first [ reflexivity
          | exfalso; apply Hne; reflexivity
          | pose proof (Hbt Hne) as Hph; discriminate Hph ].
Qed.

Lemma step_rejected_inv s ev s' :
  rejected_inv s -> step cfg s ev = Some s' -> rejected_inv s'.
Proof.
  intros Hinv H.
  destruct (promise s) as [| |v0] eqn:Hp.
  - unfold rejected_inv, over, torn_down in *.
    destruct s as [hp hd ri rt ab pr ph tr]. simpl in Hp. subst pr. clear Hinv.
    break_step H; unfold_state; simpl in *; break_goal; intros rej Hrej;
      first [ discriminate Hrej | repeat split; reflexivity ].
  - unfold rejected_inv, over, torn_down in *.
    destruct s as [hp hd ri rt ab pr ph tr]. simpl in Hp. subst pr. clear Hinv.
    break_step H; unfold_state; simpl in *; break_goal; intros rej Hrej;
      first [ discriminate Hrej | repeat split; reflexivity ].
  - destruct (step_over _ _ _ _ (Hinv v0 Hp) H) as (Hov & _ & _).
    intros rej _. exact Hov.
Qed.

Lemma run_invariants s evs s' :
  settled_inv s -> timer_between_attempts s -> rejected_inv s ->
  run cfg s evs = Some s' ->
  settled_inv s' /\ timer_between_attempts s' /\ rejected_inv s'.
Proof.
  revert s. induction evs as [|ev evs IH]; intros s H1 H2 H3 Hrun; simpl in Hrun.
  - injection Hrun as <-. split; [assumption | split; assumption].
  - destruct (step cfg s ev) as [s1|] eqn:Hs; [|discriminate].
    apply (IH s1);
      [ eapply step_settled_inv | eapply step_timer_between_attempts
      | eapply step_rejected_inv | ]; eassumption.
Qed.

Lemma initial_invariants h0 :
  settled_inv (nodeEventSource cfg h0) /\
  timer_between_attempts (nodeEventSource cfg h0) /\
  rejected_inv (nodeEventSource cfg h0).
Proof.
  split; [|split].
  - intros H. exfalso. apply H. reflexivity.
  - intros H. exfalso. apply H. reflexivity.
  - intros v H. discriminate H.
Qed.

(** Attempts never overlap: whenever the retry timer of a call is live, the
    [create] of the previous attempt has returned, so the timer never starts
    an attempt while another one is in flight. *)
Theorem no_retry_timer_during_attempt h0 evs s d :
  run cfg (nodeEventSource cfg h0) evs = Some s ->
  retryTimer s = Some d ->
  phase s = Returned.
Proof.
  intros Hrun Ht.
  destruct (initial_invariants h0) as (H1 & H2 & H3).
  destruct (run_invariants _ _ _ H1 H2 H3 Hrun) as (_ & Hbt & _).
  apply Hbt. rewrite Ht. discriminate.
Qed.

(** Rejection is final: once the promise of a call has been rejected,
    [create] has returned, no timer is live, and whatever happens afterwards
    calls no hook, issues no request and leaves the rejection as it is. *)
Theorem rejected_call_is_over h0 evs s v evs' s' :
  run cfg (nodeEventSource cfg h0) evs = Some s ->
  promise s = Rejected v ->
  run cfg s evs' = Some s' ->
  phase s = Returned /\ retryTimer s = None /\
  promise s' = Rejected v /\
  trace s' = trace s /\
  retryTimer s' = None.
Proof.
  intros Hrun Hp Hrun'.
  destruct (initial_invariants h0) as (H1 & H2 & H3).
  destruct (run_invariants _ _ _ H1 H2 H3 Hrun) as (_ & _ & Hrej).
  pose proof (Hrej v Hp) as Hov.
  destruct (run_over _ _ _ _ Hov Hrun') as (Hov' & Ht & Hp').
  split; [apply Hov|]. split; [apply Hov|].
  split; [rewrite Hp'; [exact Hp | rewrite Hp; discriminate]|].
  split; [exact Ht | apply Hov'].
Qed.

(** Cancelling a call that has already settled changes nothing: a rejected
    promise stays rejected. *)
Theorem abort_after_settlement_is_noop h0 evs s :
  run cfg (nodeEventSource cfg h0) evs = Some s ->
  promise s <> Pending ->
  step cfg s EvAbort = Some s.
Proof.
  intros Hrun Hp.
  destruct (initial_invariants h0) as (H1 & _ & _).
  destruct (run_settled_inv _ _ _ _ H1 Hrun Hp) as [Ha Ht].
  destruct s as [hp hd ri rt ab pr ph tr]. simpl in *. subst ab rt.
  unfold onAbort, resolve. simpl. destruct pr; [contradiction|reflexivity|reflexivity].
Qed.

(** ** Counting attempts *)

Ltac default_policy_returns :=
  unfold onError in *;
  match goal with
  | H1 : cfg_onError cfg = None, H2 : context [cfg_onError cfg] |- _ =>
      rewrite H1 in H2; discriminate H2
  end.

Lemma step_budget s ev s' :
  step cfg s ev = Some s' ->
  (length (requests (trace s)) + timer_live s <= 1 + length (schedules (trace s)) ->
   length (requests (trace s')) + timer_live s' <= 1 + length (schedules (trace s')))%nat /\
  (length (schedules (trace s)) <= length (errors (trace s)) ->
   length (schedules (trace s')) <= length (errors (trace s')))%nat /\
  (cfg_onError cfg = None ->
   schedules (trace s') = schedules (trace s) /\ errors (trace s') = errors (trace s)).
Proof.
  intros H. destruct s as [hp hd ri rt ab pr ph tr].
  unfold requests, schedules, errors, timer_live.
  break_step H; unfold_state; simpl in *; break_goal;
    try default_policy_returns;
    rewrite ?List.filter_app, ?length_app; simpl; rewrite ?app_nil_r;
    (split; [|split]); try (intros; lia); try (intros; split; reflexivity);
    try (intros; congruence).
Qed.

Lemma run_budget s evs s' :
  run cfg s evs = Some s' ->
  (length (requests (trace s)) + timer_live s <= 1 + length (schedules (trace s)) ->
   length (requests (trace s')) + timer_live s' <= 1 + length (schedules (trace s')))%nat /\
  (length (schedules (trace s)) <= length (errors (trace s)) ->
   length (schedules (trace s')) <= length (errors (trace s')))%nat /\
  (cfg_onError cfg = None ->
   schedules (trace s') = schedules (trace s) /\ errors (trace s') = errors (trace s)).
Proof.
  revert s. induction evs as [|ev evs IH]; intros s Hrun; simpl in Hrun.
  - injection Hrun as <-. repeat split; auto.
  - destruct (step cfg s ev) as [s1|] eqn:Hs; [|discriminate].
    destruct (step_budget _ _ _ Hs) as (A1 & B1 & C1).
    destruct (IH _ Hrun) as (A & B & C).
    split; [auto|]. split; [auto|]. intros Hno.
    destruct (C Hno) as [-> ->]. auto.
Qed.

Lemma initial_budget h0 :
  (length (requests (trace (nodeEventSource cfg h0))) + timer_live (nodeEventSource cfg h0)
   <= 1 + length (schedules (trace (nodeEventSource cfg h0))))%nat /\
  (length (schedules (trace (nodeEventSource cfg h0)))
   <= length (errors (trace (nodeEventSource cfg h0))))%nat.
Proof.
  unfold nodeEventSource, create, requests, schedules, errors, timer_live.
  split; simpl; lia.
Qed.

(** Every attempt after the first was asked for by the error policy: a call
    never starts more attempts than one plus the number of retries it has
    scheduled, and never schedules more retries than the number of times the
    caller's error policy was called. *)
Theorem attempts_are_bounded_by_verdicts h0 evs s :
  run cfg (nodeEventSource cfg h0) evs = Some s ->
  (1 <= length (requests (trace s)) <= 1 + length (schedules (trace s)))%nat /\
  (length (schedules (trace s)) <= length (errors (trace s)))%nat.
Proof.
  intros Hrun. destruct (run_budget _ _ _ Hrun) as (A & B & _).
  destruct (initial_budget h0) as [A0 B0].
  destruct (run_heap _ _ _ _ Hrun) as (_ & _ & _ & t & Ht & _).
  assert (H1 : (1 <= length (requests (trace s)))%nat).
  { rewrite Ht. unfold requests. rewrite List.filter_app, length_app. simpl. lia. }
  specialize (A A0). specialize (B B0). lia.
Qed.

(** Without an error policy a call makes exactly one attempt: whatever
    happens, the only request ever issued is the first one and no retry is
    scheduled. *)
Theorem no_policy_single_attempt h0 evs s :
  cfg_onError cfg = None ->
  run cfg (nodeEventSource cfg h0) evs = Some s ->
  schedules (trace s) = [] /\
  requests (trace s) = [ObsRequest (initial_record cfg h0)].
Proof.
  intros Hno Hrun. destruct (run_budget _ _ _ Hrun) as (A & _ & C).
  destruct (initial_budget h0) as [A0 _]. specialize (A A0).
  destruct (C Hno) as [Hs _]. simpl in Hs.
  destruct (run_heap _ _ _ _ Hrun) as (_ & _ & _ & t & Ht & _).
  split; [exact Hs|].
  rewrite Hs in A. rewrite Ht in *. unfold requests in *.
  rewrite List.filter_app in *. rewrite length_app in A. simpl in *.
  destruct (List.filter is_request t); [reflexivity | simpl in A; lia].
Qed.

(** ** The rejection value *)

Lemma step_rejected_by_policy s ev s' :
  rejected_by_policy cfg s -> step cfg s ev = Some s' -> rejected_by_policy cfg s'.
Proof.
  unfold rejected_by_policy. intros Hinv H.
  destruct s as [hp hd ri rt ab pr ph tr]. simpl in Hinv.
  break_step H; unfold_state; simpl in *; break_goal; intros rej Hrej;
    first [ apply Hinv; exact Hrej
          | discriminate Hrej
          | injection Hrej as <-; eauto ].
Qed.

(** The promise of a call is never rejected with anything but a value
    thrown by the error policy (the caller's, or the default one, which
    throws the classified error). *)
Theorem rejection_comes_from_policy h0 evs s v :
  run cfg (nodeEventSource cfg h0) evs = Some s ->
  promise s = Rejected v ->
  exists t e, onError cfg t e = Throws v.
Proof.
  intros Hrun. revert v.
  change (rejected_by_policy cfg s).
  assert (H0 : rejected_by_policy cfg (nodeEventSource cfg h0)) by (intros v Hv; discriminate Hv).
  revert Hrun H0. generalize (nodeEventSource cfg h0) as s0.
  induction evs as [|ev evs IH]; intros s0 Hrun H0; simpl in Hrun.
  - injection Hrun as <-. exact H0.
  - destruct (step cfg s0 ev) as [s1|] eqn:Hs; [|discriminate].
    apply (IH s1 Hrun). eapply step_rejected_by_policy; eassumption.
Qed.

(** ** The close hook *)

(** The close hook is called only when the byte stream of an attempt ends
    naturally: a fault, a sink call, a validation result, the retry timer or
    the caller's abort signal never calls it. *)
Theorem close_hook_only_on_natural_end s ev s' :
  step cfg s ev = Some s' ->
  ev <> EvStreamEnd ->
  closes (trace s') = closes (trace s).
Proof.
  intros H Hev. destruct s as [hp hd ri rt ab pr ph tr]. unfold closes.
  destruct ev; try (exfalso; apply Hev; reflexivity);
    break_step H; unfold_state; simpl in *; break_goal;
    rewrite ?List.filter_app; simpl; rewrite ?app_nil_r; reflexivity.
Qed.

Lemma step_closed_once s ev s' :
  (forall f t v, cfg_onClose cfg = Some f -> f t <> Throws v) ->
  rejected_inv s -> closed_once s -> step cfg s ev = Some s' -> closed_once s'.
Proof.
  intros Hok Hinv Hc H.
  destruct Hc as [Hnil | (Hone & Hres & Hov)].
  - unfold closed_once, rejected_inv, over, torn_down, closes in *.
    destruct s as [hp hd ri rt ab pr ph tr]. simpl in Hnil, Hinv.
    break_step H; unfold_state; simpl in *; break_goal;
      rewrite ?List.filter_app, ?Hnil; simpl;
      try (left; reflexivity);
      try (exfalso; eapply (Hok _ _ _ eq_refl); eassumption);
      try (exfalso; destruct (Hinv _ eq_refl) as [_ Hph]; discriminate Hph).
    all: right; repeat split; reflexivity.
  - destruct (step_over _ _ _ _ Hov H) as (Hov' & Ht & Hp).
    right. rewrite Ht, Hp; [|rewrite Hres; discriminate].
    split; [exact Hone|]. split; [exact Hres | exact Hov'].
Qed.

(** A close hook that does not throw is called at most once in a whole
    call, and once it has been called the promise is resolved and no further
    attempt can follow. *)
Theorem close_hook_called_at_most_once h0 evs s :
  (forall f t v, cfg_onClose cfg = Some f -> f t <> Throws v) ->
  run cfg (nodeEventSource cfg h0) evs = Some s ->
  closes (trace s) = [] \/
  (closes (trace s) = [ObsClose] /\ promise s = Resolved /\
   retryTimer s = None /\ aborted s = true).
Proof.
  intros Hok Hrun.
  assert (H : rejected_inv s /\ closed_once s).
  { destruct (initial_invariants h0) as (_ & _ & H1).
    assert (H0 : closed_once (nodeEventSource cfg h0)) by (left; reflexivity).
    revert Hrun H1 H0. generalize (nodeEventSource cfg h0) as s0.
    induction evs as [|ev evs IH]; intros s0 Hrun H1 H0; simpl in Hrun.
    - injection Hrun as <-. split; assumption.
    - destruct (step cfg s0 ev) as [s1|] eqn:Hs; [|discriminate].
      apply (IH s1 Hrun); [eapply step_rejected_inv | eapply step_closed_once]; eassumption. }
  destruct H as [_ [Hnil | (Hone & Hres & (Ha & Ht) & _)]]; [left | right]; auto.
Qed.

(** ** The header record across attempts *)

Lemma idSink_other id s k :
  k <> LastEventId -> cur_headers (idSink id s) !! k = cur_headers s !! k.
Proof.
  intros Hk. unfold idSink, cur_headers.
  destruct (truthy id); simpl; rewrite lookup_insert_eq; simpl.
  - rewrite lookup_insert_ne by congruence. reflexivity.
  - rewrite lookup_delete_ne by congruence. reflexivity.
Qed.

Lemma step_headers_agree base s ev s' :
  headers_agree base s -> step cfg s ev = Some s' -> headers_agree base s'.
Proof.
  intros [Hcur Hreq] H.
  destruct (step_heap _ _ _ _ H) as (Hh & Hsame & _ & t & Ht & Hnew).
  assert (Hcur' : forall k, k <> LastEventId -> cur_headers s' !! k = base !! k).
  { intros k Hk. rewrite <- (Hcur k Hk).
    destruct (is_id_sink ev) eqn:Hid.
    - destruct ev as [| | |[id| |]| | | |]; try discriminate Hid.
      assert (Hs' : s' = idSink id s).
      { unfold step, try_block in H. destruct (phase s) as [|[|]| |]; congruence. }
      subst s'. apply idSink_other, Hk.
    - unfold cur_headers. rewrite Hh, (Hsame eq_refl). reflexivity. }
  split; [exact Hcur'|].
  intros h Hin k Hk. rewrite Ht in Hin. apply in_app_or in Hin as [Hin|Hin].
  - apply (Hreq h Hin k Hk).
  - rewrite (Hnew h Hin). apply Hcur, Hk.
Qed.

(** Every attempt of a call is issued with the headers the record held at
    call start, last-event-id apart: the caller's entries are never dropped
    or changed, and the accept header of every request is non-empty, the
    caller's own when the caller gave a non-empty one and text/event-stream
    otherwise. *)
Theorem requests_carry_initial_headers h0 evs s h :
  run cfg (nodeEventSource cfg h0) evs = Some s ->
  In (ObsRequest h) (trace s) ->
  let caller := match cfg_headers cfg with
                | Some l => default ∅ (h0 !! l)
                | None => ∅
                end in
  (forall k, k <> LastEventId -> k <> "accept" -> h !! k = caller !! k) /\
  h !! "accept" = (if truthy (caller !! "accept") then caller !! "accept"
                   else Some EventStreamContentType) /\
  truthy (h !! "accept") = true.
Proof.
  intros Hrun Hin caller.
  assert (Hagree : headers_agree (initial_record cfg h0) s).
  { assert (H0 : headers_agree (initial_record cfg h0) (nodeEventSource cfg h0)).
    { split; [intros; reflexivity|]. intros h' [Hh'|[]] k Hk. injection Hh' as <-. reflexivity. }
    revert Hrun H0. unfold initial_record. generalize (cur_headers (nodeEventSource cfg h0)) as base.
    generalize (nodeEventSource cfg h0) as s0.
    induction evs as [|ev evs IH]; intros s0 base Hrun H0; simpl in Hrun.
    - injection Hrun as <-. exact H0.
    - destruct (step cfg s0 ev) as [s1|] eqn:Hs; [|discriminate].
      apply (IH s1 base Hrun). eapply step_headers_agree; eassumption. }
  destruct Hagree as [_ Hreq].
  assert (Hinit : initial_record cfg h0 =
                  if truthy (caller !! "accept") then caller
                  else <["accept" := EventStreamContentType]> caller).
  { unfold initial_record, cur_headers. simpl. rewrite lookup_insert_eq. reflexivity. }
  assert (Hacc : h !! "accept" = (if truthy (caller !! "accept") then caller !! "accept"
                                  else Some EventStreamContentType)).
  { rewrite (Hreq h Hin "accept") by discriminate. rewrite Hinit.
    destruct (truthy (caller !! "accept")); [reflexivity | apply lookup_insert_eq]. }
  split; [|split; [exact Hacc|]].
  - intros k Hk Hk'. rewrite (Hreq h Hin k Hk), Hinit.
    destruct (truthy (caller !! "accept")); [reflexivity|].
    rewrite lookup_insert_ne by congruence. reflexivity.
  - rewrite Hacc. destruct (truthy (caller !! "accept")) eqn:Ht; [exact Ht | reflexivity].
Qed.

(** An id followed by an empty id leaves the header record as it was before
    any id was seen. *)
Theorem id_then_empty_id_restores_headers s x h :
  heap s !! headers s = Some h ->
  h !! LastEventId = None ->
  heap (idSink None (idSink (Some x) s)) = heap s /\
  cur_headers (idSink None (idSink (Some x) s)) = h.
Proof.
  intros Hh Hnone.
  assert (Hheap : heap (idSink None (idSink (Some x) s)) = heap s).
  { unfold idSink, cur_headers. simpl. destruct (negb (String.eqb x EmptyString)); simpl;
      rewrite lookup_insert_eq, insert_insert_eq, Hh; simpl.
    - rewrite delete_insert_id by exact Hnone. apply insert_id, Hh.
    - rewrite delete_delete_eq, delete_id by exact Hnone. apply insert_id, Hh. }
  split; [exact Hheap|].
  unfold cur_headers. rewrite Hheap.
  assert (Hhd : headers (idSink None (idSink (Some x) s)) = headers s).
  { unfold idSink. simpl. destruct (negb (String.eqb x EmptyString)); reflexivity. }
  rewrite Hhd, Hh. reflexivity.
Qed.

(** ** Repeated retries *)

Lemma one_round s err f :
  cfg_onError cfg = Some f ->
  (forall t e, f t e = Returns VTrue) ->
  phase s = Connecting -> aborted s = false ->
  run cfg s [EvAxiosReject err; EvTimer] =
  Some (create (set_retryTimer None
          (log (ObsSchedule (retryInterval s))
             (set_retryTimer (Some (retryInterval s))
                (log (ObsError (classify err)) (set_phase Returned s)))))).
Proof.
  intros Hf Htrue Hph Hab. cbn [run].
  assert (Hs : step cfg s (EvAxiosReject err) =
               Some (log (ObsSchedule (retryInterval s))
                       (set_retryTimer (Some (retryInterval s))
                          (log (ObsError (classify err)) (set_phase Returned s))))).
  { unfold step, try_block. rewrite Hph.
    unfold catch_block, onError, log_if. simpl. rewrite Hab, Hf. simpl.
    rewrite Htrue. reflexivity. }
  rewrite Hs. reflexivity.
Qed.

Lemma rounds_from s n err f :
  cfg_onError cfg = Some f ->
  (forall t e, f t e = Returns VTrue) ->
  phase s = Connecting -> aborted s = false ->
  exists s',
    run cfg s (rounds n err) = Some s' /\
    phase s' = Connecting /\ aborted s' = false /\
    promise s' = promise s /\ retryInterval s' = retryInterval s /\
    heap s' = heap s /\ headers s' = headers s /\
    requests (trace s') =
      (requests (trace s) ++ List.repeat (ObsRequest (cur_headers s)) n)%list /\
    schedules (trace s') =
      (schedules (trace s) ++ List.repeat (ObsSchedule (retryInterval s)) n)%list.
Proof.
  intros Hf Htrue. revert s.
  induction n as [|n IH]; intros s Hph Hab.
  - exists s. simpl. rewrite !app_nil_r. repeat split; auto.
  - set (s1 := create (set_retryTimer None
                  (log (ObsSchedule (retryInterval s))
                     (set_retryTimer (Some (retryInterval s))
                        (log (ObsError (classify err)) (set_phase Returned s)))))).
    destruct (IH s1 eq_refl eq_refl)
      as (s' & Hrun & Hph' & Hab' & Hp' & Hri' & Hheap' & Hhd' & Hrq' & Hsc').
    exists s'. split.
    { change (rounds (S n) err) with ([EvAxiosReject err; EvTimer] ++ rounds n err)%list.
      rewrite run_app, (one_round s err f Hf Htrue Hph Hab). exact Hrun. }
    split; [exact Hph'|]. split; [exact Hab'|]. split; [exact Hp'|].
    split; [exact Hri'|]. split; [exact Hheap'|]. split; [exact Hhd'|].
    split.
    + rewrite Hrq'. unfold requests, s1, create, cur_headers. simpl.
      rewrite !List.filter_app. simpl. rewrite !app_nil_r, <- app_assoc. reflexivity.
    + rewrite Hsc'. unfold schedules, s1, create. simpl.
      rewrite !List.filter_app. simpl. rewrite !app_nil_r, <- app_assoc. reflexivity.
Qed.

(** The orchestrator never gives up on its own and never grows the delay:
    with a policy that always answers [true], after any number [n] of
    refused attempts the promise is still pending, [n + 1] attempts have
    been started, all with the same headers, and the [n] retries were all
    scheduled with the same delay. *)
Theorem retries_are_unbounded h0 n err f :
  cfg_onError cfg = Some f ->
  (forall t e, f t e = Returns VTrue) ->
  exists s,
    run cfg (nodeEventSource cfg h0) (rounds n err) = Some s /\
    promise s = Pending /\
    phase s = Connecting /\
    requests (trace s) = List.repeat (ObsRequest (initial_record cfg h0)) (S n) /\
    schedules (trace s) =
      List.repeat (ObsSchedule (match cfg_retryInterval cfg with
                                | Some d => d | None => 1000%Z end)) n.
Proof.
  intros Hf Htrue.
  destruct (rounds_from (nodeEventSource cfg h0) n err f Hf Htrue eq_refl eq_refl)
    as (s & Hrun & Hph & _ & Hp & _ & _ & _ & Hrq & Hsc).
  exists s. split; [exact Hrun|]. split; [exact Hp|]. split; [exact Hph|].
  split.
  - rewrite Hrq. reflexivity.
  - rewrite Hsc. simpl. destruct (cfg_retryInterval cfg); reflexivity.
Qed.

(** ** Open validation and the error policy *)

Lemma defaultOnOpen_mismatch r :
  (forall params, response_headers r !! "Content-Type"
                  <> Some ("text/event-stream" ++ params)) ->
  defaultOnOpen r = Throws (content_type_error (response_headers r !! "Content-Type")).
Proof.
  intros Hct. unfold defaultOnOpen.
  destruct (response_headers r !! "Content-Type") as [ct|] eqn:E; [|reflexivity].
  destruct (String.prefix EventStreamContentType ct) eqn:Hp; [|reflexivity].
  apply prefix_iff_app in Hp as [params ->]. exfalso. exact (Hct params eq_refl).
Qed.

(** A response rejected by the default validation is reported to the
    caller's error policy as a fault of type Other whose origin is the
    descriptive error, like any fault that is not an AxiosError; the close
    hook is not called. *)
Theorem validation_failure_is_reported_as_other s r f :
  cfg_onOpen cfg = None ->
  cfg_onError cfg = Some f ->
  phase s = Connecting -> aborted s = false ->
  (forall params, response_headers r !! "Content-Type"
                  <> Some ("text/event-stream" ++ params)) ->
  exists s',
    run cfg s [EvAxiosResponse r; EvOpenSettled] = Some s' /\
    errors (trace s') =
      (errors (trace s) ++
       [ObsError {| type := Other;
                    origin := content_type_error (response_headers r !! "Content-Type") |}])%list /\
    closes (trace s') = closes (trace s) /\
    phase s' = Returned.
Proof.
  intros Hopen Hf Hph Hab Hct.
  set (e := content_type_error (response_headers r !! "Content-Type")).
  set (s1 := set_phase (Opening (Throws e)) s).
  assert (H1 : step cfg s (EvAxiosResponse r) = Some s1).
  { unfold step, try_block, onOpen, log_if. rewrite Hph, Hopen. simpl.
    rewrite (defaultOnOpen_mismatch r Hct). reflexivity. }
  exists (catch_block cfg e s1). split.
  { cbn [run]. rewrite H1. reflexivity. }
  unfold catch_block, log_if, errors, closes. simpl. rewrite Hab, Hf.
  destruct (onError cfg _ _) as [v|v]; [destruct (nullish v false)|];
    unfold reject; simpl; try destruct (promise s); simpl;
    rewrite ?List.filter_app; simpl; rewrite ?app_nil_r; repeat split; reflexivity.
Qed.

(** A custom [onOpen] replaces the default validation altogether: when it
    returns, the attempt streams the body of the response whatever its
    content type, and when it throws, the thrown value is the fault of the
    attempt. The hook is called once, with the response. *)
Theorem custom_on_open_replaces_validation s r g :
  cfg_onOpen cfg = Some g ->
  phase s = Connecting ->
  exists s1,
    step cfg s (EvAxiosResponse r) = Some s1 /\
    trace s1 = (trace s ++ [ObsOpen r])%list /\
    (forall u, g (trace s ++ [ObsOpen r])%list r = Returns u ->
       step cfg s1 EvOpenSettled = Some (set_phase Streaming s1)) /\
    (forall v, g (trace s ++ [ObsOpen r])%list r = Throws v ->
       try_block cfg s1 EvOpenSettled = Some (s1, Some v)).
Proof.
  intros Hg Hph.
  exists (set_phase (Opening (g (trace s ++ [ObsOpen r])%list r)) (log (ObsOpen r) s)).
  split; [|split; [reflexivity|split]].
  - unfold step, try_block, onOpen, log_if. rewrite Hph, Hg. reflexivity.
  - intros u Hu. unfold step, try_block. simpl. rewrite Hu. reflexivity.
  - intros v Hv. unfold try_block. simpl. rewrite Hv. reflexivity.
Qed.

End MoreOrchestrator.

(** ** The further properties at concrete calls *)

Lemma fault_is_reported_once_witness :
  let cfg := policy_cfg VTrue in
  let s := nodeEventSource cfg ∅ in
  cfg_onError cfg = Some (fun _ _ => Returns VTrue) /\
  try_block cfg s (EvAxiosReject refused) = Some (s, Some refused) /\
  aborted s = false /\
  exists s',
    step cfg s (EvAxiosReject refused) = Some s' /\
    errors (trace s') =
      (errors (trace s) ++ [ObsError {| type := Request; origin := refused |}])%list.
Proof.
  intros cfg s.
  assert (h1 : cfg_onError cfg = Some (fun _ _ => Returns VTrue)) by reflexivity.
  assert (h2 : try_block cfg s (EvAxiosReject refused) = Some (s, Some refused)) by reflexivity.
  assert (h3 : aborted s = false) by reflexivity.
  split; [exact h1|]. split; [exact h2|]. split; [exact h3|].
  exact (fault_is_reported_once cfg s _ s refused _ h1 h2 h3).
Defined.

Lemma truthy_verdict_starts_new_attempt_witness :
  let cfg := policy_cfg VTrue in
  let s := nodeEventSource cfg ∅ in
  cfg_onError cfg = Some (fun _ _ => Returns VTrue) /\
  try_block cfg s (EvAxiosReject refused) = Some (s, Some refused) /\
  aborted s = false /\
  exists s' s'',
    step cfg s (EvAxiosReject refused) = Some s' /\
    retryTimer s' = Some 1000%Z /\
    step cfg s' EvTimer = Some s'' /\
    phase s'' = Connecting /\
    promise s'' = Pending.
Proof.
  intros cfg s.
  assert (h1 : cfg_onError cfg = Some (fun _ _ => Returns VTrue)) by reflexivity.
  assert (h2 : try_block cfg s (EvAxiosReject refused) = Some (s, Some refused)) by reflexivity.
  assert (h3 : aborted s = false) by reflexivity.
  split; [exact h1|]. split; [exact h2|]. split; [exact h3|].
  destruct (truthy_verdict_starts_new_attempt cfg s _ s refused _ h1 h2 h3 eq_refl)
    as (s' & s'' & H1 & _ & H3 & _ & _ & H6 & H7 & _ & _ & H10 & _).
  exists s', s''. split; [exact H1|]. split; [exact H3|]. split; [exact H6|].
  split; [exact H7 | exact H10].
Defined.

Lemma throwing_policy_rejects_witness :
  let s := nodeEventSource fatal_cfg ∅ in
  cfg_onError fatal_cfg = Some (fun _ _ => Throws (JsAny "fatal")) /\
  try_block fatal_cfg s (EvAxiosReject refused) = Some (s, Some refused) /\
  aborted s = false /\ promise s = Pending /\
  exists s',
    step fatal_cfg s (EvAxiosReject refused) = Some s' /\
    promise s' = Rejected (JsAny "fatal") /\
    retryTimer s' = None.
Proof.
  intros s.
  assert (h1 : cfg_onError fatal_cfg = Some (fun _ _ => Throws (JsAny "fatal"))) by reflexivity.
  assert (h2 : try_block fatal_cfg s (EvAxiosReject refused) = Some (s, Some refused))
    by reflexivity.
  assert (h3 : aborted s = false) by reflexivity.
  assert (h4 : promise s = Pending) by reflexivity.
  split; [exact h1|]. split; [exact h2|]. split; [exact h3|]. split; [exact h4|].
  destruct (throwing_policy_rejects fatal_cfg s _ s refused _ _ h1 h2 h3 h4 eq_refl)
    as (s' & H1 & H2 & H3 & _).
  exists s'. split; [exact H1|]. split; [exact H2 | exact H3].
Defined.

Lemma no_retry_timer_during_attempt_witness :
  let cfg := policy_cfg VTrue in
  let s := after cfg (nodeEventSource cfg ∅) [EvAxiosReject refused] in
  run cfg (nodeEventSource cfg ∅) [EvAxiosReject refused] = Some s /\
  retryTimer s = Some 1000%Z /\
  phase s = Returned.
Proof.
  intros cfg s.
  assert (h1 : run cfg (nodeEventSource cfg ∅) [EvAxiosReject refused] = Some s)
    by (vm_compute; reflexivity).
  assert (h2 : retryTimer s = Some 1000%Z) by (vm_compute; reflexivity).
  split; [exact h1|]. split; [exact h2|].
  exact (no_retry_timer_during_attempt cfg ∅ _ s _ h1 h2).
Defined.

Lemma rejected_call_is_over_witness :
  let s := after fatal_cfg (nodeEventSource fatal_cfg ∅) [EvAxiosReject refused] in
  let s' := after fatal_cfg s [EvAbort] in
  run fatal_cfg (nodeEventSource fatal_cfg ∅) [EvAxiosReject refused] = Some s /\
  promise s = Rejected (JsAny "fatal") /\
  run fatal_cfg s [EvAbort] = Some s' /\
  promise s' = Rejected (JsAny "fatal") /\
  trace s' = trace s.
Proof.
  intros s s'.
  assert (h1 : run fatal_cfg (nodeEventSource fatal_cfg ∅) [EvAxiosReject refused] = Some s)
    by (vm_compute; reflexivity).
  assert (h2 : promise s = Rejected (JsAny "fatal")) by (vm_compute; reflexivity).
  assert (h3 : run fatal_cfg s [EvAbort] = Some s') by (vm_compute; reflexivity).
  split; [exact h1|]. split; [exact h2|]. split; [exact h3|].
  destruct (rejected_call_is_over fatal_cfg ∅ _ s _ _ s' h1 h2 h3) as (_ & _ & H3 & H4 & _).
  split; [exact H3 | exact H4].
Defined.

Lemma abort_after_settlement_is_noop_witness :
  let s := after plain_cfg (nodeEventSource plain_cfg ∅) [EvAxiosReject refused] in
  run plain_cfg (nodeEventSource plain_cfg ∅) [EvAxiosReject refused] = Some s /\
  promise s <> Pending /\
  step plain_cfg s EvAbort = Some s.
Proof.
  intros s.
  assert (h1 : run plain_cfg (nodeEventSource plain_cfg ∅) [EvAxiosReject refused] = Some s)
    by (vm_compute; reflexivity).
  assert (h2 : promise s <> Pending) by (intros H; vm_compute in H; discriminate H).
  split; [exact h1|]. split; [exact h2|].
  exact (abort_after_settlement_is_noop plain_cfg ∅ _ s h1 h2).
Defined.

Lemma attempts_are_bounded_by_verdicts_witness :
  let cfg := policy_cfg VTrue in
  let s := after cfg (nodeEventSource cfg ∅) (rounds 2 refused) in
  run cfg (nodeEventSource cfg ∅) (rounds 2 refused) = Some s /\
  (1 <= length (requests (trace s)) <= 1 + length (schedules (trace s)))%nat /\
  (length (schedules (trace s)) <= length (errors (trace s)))%nat.
Proof.
  intros cfg s.
  assert (h1 : run cfg (nodeEventSource cfg ∅) (rounds 2 refused) = Some s)
    by (vm_compute; reflexivity).
  split; [exact h1|].
  exact (attempts_are_bounded_by_verdicts cfg ∅ _ s h1).
Defined.

Lemma no_policy_single_attempt_witness :
  let evs := [EvAxiosResponse event_stream_response; EvOpenSettled;
              EvStreamFault (JsError "reset")] in
  let s := after plain_cfg (nodeEventSource plain_cfg ∅) evs in
  cfg_onError plain_cfg = None /\
  run plain_cfg (nodeEventSource plain_cfg ∅) evs = Some s /\
  schedules (trace s) = [] /\
  requests (trace s) = [ObsRequest (initial_record plain_cfg ∅)].
Proof.
  intros evs s.
  assert (h1 : cfg_onError plain_cfg = None) by reflexivity.
  assert (h2 : run plain_cfg (nodeEventSource plain_cfg ∅) evs = Some s)
    by (vm_compute; reflexivity).
  split; [exact h1|]. split; [exact h2|].
  exact (no_policy_single_attempt plain_cfg ∅ evs s h1 h2).
Defined.

Lemma rejection_comes_from_policy_witness :
  let s := after plain_cfg (nodeEventSource plain_cfg ∅) [EvAxiosReject refused] in
  run plain_cfg (nodeEventSource plain_cfg ∅) [EvAxiosReject refused] = Some s /\
  promise s = Rejected (JsEventSourceError Request refused) /\
  exists t e, onError plain_cfg t e = Throws (JsEventSourceError Request refused).
Proof.
  intros s.
  assert (h1 : run plain_cfg (nodeEventSource plain_cfg ∅) [EvAxiosReject refused] = Some s)
    by (vm_compute; reflexivity).
  assert (h2 : promise s = Rejected (JsEventSourceError Request refused))
    by (vm_compute; reflexivity).
  split; [exact h1|]. split; [exact h2|].
  exact (rejection_comes_from_policy plain_cfg ∅ _ s _ h1 h2).
Defined.

Lemma close_hook_only_on_natural_end_witness :
  let s := streaming close_throws_cfg in
  let ev := EvStreamFault (JsError "reset") in
  step close_throws_cfg s ev = Some (after close_throws_cfg s [ev]) /\
  ev <> EvStreamEnd /\
  closes (trace (after close_throws_cfg s [ev])) = closes (trace s).
Proof.
  intros s ev.
  assert (h1 : step close_throws_cfg s ev = Some (after close_throws_cfg s [ev]))
    by (vm_compute; reflexivity).
  assert (h2 : ev <> EvStreamEnd) by discriminate.
  split; [exact h1|]. split; [exact h2|].
  exact (close_hook_only_on_natural_end close_throws_cfg s ev _ h1 h2).
Defined.

Lemma close_hook_called_at_most_once_witness :
  let evs := [EvAxiosResponse event_stream_response; EvOpenSettled; EvStreamEnd] in
  let s := after closing_cfg (nodeEventSource closing_cfg ∅) evs in
  (forall f t v, cfg_onClose closing_cfg = Some f -> f t <> Throws v) /\
  run closing_cfg (nodeEventSource closing_cfg ∅) evs = Some s /\
  (closes (trace s) = [] \/
   (closes (trace s) = [ObsClose] /\ promise s = Resolved /\
    retryTimer s = None /\ aborted s = true)).
Proof.
  intros evs s.
  assert (h1 : forall f t v, cfg_onClose closing_cfg = Some f -> f t <> Throws v).
  { intros f t v Hf. injection Hf as <-. discriminate. }
  assert (h2 : run closing_cfg (nodeEventSource closing_cfg ∅) evs = Some s)
    by (vm_compute; reflexivity).
  split; [exact h1|]. split; [exact h2|].
  exact (close_hook_called_at_most_once closing_cfg ∅ evs s h1 h2).
Defined.

Lemma requests_carry_initial_headers_witness :
  let evs := [EvAxiosResponse event_stream_response; EvOpenSettled;
              EvSink (SinkId (Some "42")); EvStreamFault (JsError "reset"); EvTimer] in
  let s := after headers_cfg (nodeEventSource headers_cfg caller_heap) evs in
  let h := cur_headers s in
  run headers_cfg (nodeEventSource headers_cfg caller_heap) evs = Some s /\
  In (ObsRequest h) (trace s) /\
  h !! "authorization" = Some "token" /\
  h !! "accept" = Some "text/event-stream" /\
  h !! LastEventId = Some "42".
Proof.
  intros evs s h.
  assert (h1 : run headers_cfg (nodeEventSource headers_cfg caller_heap) evs = Some s)
    by (vm_compute; reflexivity).
  assert (h2 : In (ObsRequest h) (trace s)).
  { vm_compute. right. right. right. left. reflexivity. }
  split; [exact h1|]. split; [exact h2|].
  destruct (requests_carry_initial_headers headers_cfg caller_heap evs s h h1 h2)
    as (Hk & Hacc & _).
  split; [|split].
  - rewrite (Hk "authorization") by discriminate. vm_compute. reflexivity.
  - rewrite Hacc. vm_compute. reflexivity.
  - vm_compute. reflexivity.
Defined.

Lemma id_then_empty_id_restores_headers_witness :
  let s := streaming plain_cfg in
  let h : gmap string string := {[ "accept" := "text/event-stream" ]} in
  heap s !! headers s = Some h /\
  h !! LastEventId = None /\
  heap (idSink None (idSink (Some "42") s)) = heap s /\
  cur_headers (idSink None (idSink (Some "42") s)) = h.
Proof.
  intros s h.
  assert (h1 : heap s !! headers s = Some h) by (vm_compute; reflexivity).
  assert (h2 : h !! LastEventId = None) by (vm_compute; reflexivity).
  split; [exact h1|]. split; [exact h2|].
  exact (id_then_empty_id_restores_headers s "42" h h1 h2).
Defined.

Lemma retries_are_unbounded_witness :
  let cfg := policy_cfg VTrue in
  cfg_onError cfg = Some (fun _ _ => Returns VTrue) /\
  (forall (t : list Obs) (e : NodeEventSourceError),
     (fun _ _ => Returns VTrue) t e = Returns VTrue) /\
  exists s,
    run cfg (nodeEventSource cfg ∅) (rounds 3 refused) = Some s /\
    promise s = Pending /\
    schedules (trace s) = List.repeat (ObsSchedule 1000) 3.
Proof.
  intros cfg.
  assert (h1 : cfg_onError cfg = Some (fun _ _ => Returns VTrue)) by reflexivity.
  assert (h2 : forall (t : list Obs) (e : NodeEventSourceError),
                 (fun _ _ => Returns VTrue) t e = Returns VTrue) by (intros; reflexivity).
  split; [exact h1|]. split; [exact h2|].
  destruct (retries_are_unbounded cfg ∅ 3 refused _ h1 h2) as (s & H1 & H2 & _ & _ & H5).
  exists s. split; [exact H1|]. split; [exact H2 | exact H5].
Defined.

Lemma validation_failure_is_reported_as_other_witness :
  let cfg := policy_cfg VTrue in
  let s := nodeEventSource cfg ∅ in
  cfg_onOpen cfg = None /\
  cfg_onError cfg = Some (fun _ _ => Returns VTrue) /\
  phase s = Connecting /\ aborted s = false /\
  (forall params, response_headers html_response !! "Content-Type"
                  <> Some ("text/event-stream" ++ params)) /\
  exists s',
    run cfg s [EvAxiosResponse html_response; EvOpenSettled] = Some s' /\
    errors (trace s') =
      (errors (trace s) ++
       [ObsError {| type := Other;
                    origin := content_type_error
                                (response_headers html_response !! "Content-Type") |}])%list.
Proof.
  intros cfg s.
  assert (h1 : cfg_onOpen cfg = None) by reflexivity.
  assert (h2 : cfg_onError cfg = Some (fun _ _ => Returns VTrue)) by reflexivity.
  assert (h3 : phase s = Connecting) by reflexivity.
  assert (h4 : aborted s = false) by reflexivity.
  assert (h5 : forall params, response_headers html_response !! "Content-Type"
                              <> Some ("text/event-stream" ++ params)).
  { intros params H. vm_compute in H. discriminate H. }
  split; [exact h1|]. split; [exact h2|]. split; [exact h3|]. split; [exact h4|].
  split; [exact h5|].
  destruct (validation_failure_is_reported_as_other cfg s html_response _ h1 h2 h3 h4 h5)
    as (s' & H1 & H2 & _).
  exists s'. split; [exact H1 | exact H2].
Defined.

Lemma custom_on_open_replaces_validation_witness :
  let s := nodeEventSource open_cfg ∅ in
  cfg_onOpen open_cfg = Some (fun _ _ => Returns tt) /\
  phase s = Connecting /\
  exists s1,
    step open_cfg s (EvAxiosResponse html_response) = Some s1 /\
    trace s1 = (trace s ++ [ObsOpen html_response])%list /\
    step open_cfg s1 EvOpenSettled = Some (set_phase Streaming s1).
Proof.
  intros s.
  assert (h1 : cfg_onOpen open_cfg = Some (fun _ _ => Returns tt)) by reflexivity.
  assert (h2 : phase s = Connecting) by reflexivity.
  split; [exact h1|]. split; [exact h2|].
  destruct (custom_on_open_replaces_validation open_cfg s html_response _ h1 h2)
    as (s1 & H1 & H2 & H3 & _).
  exists s1. split; [exact H1|]. split; [exact H2 | exact (H3 tt eq_refl)].
Defined.
